(** * LLMStack: the message envelope and the output aggregator

    A shallow embedding of [llmstack/play/messages.py] and
    [llmstack/apps/runner/output_actor.py], and the properties of the
    aggregator that the specification states about them.

    Python dictionaries are finite maps with string keys ([gmap string _]:
    dictionary equality in Python ignores insertion order, as map equality
    does here), Python sets of sender names are [gset string], the
    [asyncio.Queue] of the aggregator is a list used first-in first-out.
    A Python exception is an explicit outcome of the function that raises
    it. *)

From stdpp Require Import gmap strings list fin_maps.

Open Scope string_scope.
Open Scope list_scope.
Set Warnings "-register-all,-clear-no-such-hyp".

(** ** Python values *)

(** The values that travel as [Any] payloads: JSON-like data, and instances
    of pydantic models ([VModel], the fields of the instance). *)
Inductive PyVal :=
| VNone
| VBool (b : bool)
| VInt (z : Z)
| VStr (s : string)
| VList (l : list PyVal)
| VDict (d : gmap string PyVal)
| VModel (fields : gmap string PyVal).

(** [BaseModel.model_dump()]: the instance as a plain dictionary, nested
    instances dumped as well. *)
Fixpoint model_dump (v : PyVal) : PyVal :=
  match v with
  | VList l => VList (map model_dump l)
  | VDict d => VDict (model_dump <$> d)
  | VModel fields => VDict (model_dump <$> fields)
  | _ => v
  end.

(** Modelled from the spec: [stitch_model_objects] of
    [llmstack/play/output_stream.py], which is not among the sources. The
    specification's merge engine: two mappings are merged key by key,
    recursively; anything else (a scalar, a sequence, or a mapping meeting
    a value that is not one) is replaced by the new contribution. *)
Fixpoint stitch_model_objects (obj1 obj2 : PyVal) {struct obj2} : PyVal :=
  match obj1, obj2 with
  | VDict d1, VDict d2 =>
      VDict (map_fold
               (fun k v2 acc =>
                  <[k := match d1 !! k with
                         | Some v1 => stitch_model_objects v1 v2
                         | None => v2
                         end]> acc)
               d1 d2)
  | _, _ => obj2
  end.

(** ** messages.py *)

Module messages.

Inductive MessageType :=
| BEGIN
| CONTENT
| CONTENT_STREAM_CHUNK
| CONTENT_STREAM_BEGIN
| CONTENT_STREAM_END
| ERRORS.

(** [class Error(BaseModel)]: [code: int = -1], [message: str]. *)
Record Error := { code : Z; message : string }.

(** The members of the [Union] that types [Message.data]. *)
Inductive MessageData :=
| ContentData (content : PyVal)
| ContentStreamChunkData (chunk : PyVal)
| ErrorsData (errors : list Error)
| Dict (d : gmap string PyVal).

Record Message := {
  id : string;
  type : MessageType;
  sender : string;
  receiver : option string;
  reply_to : option string;
  data : option MessageData
}.

(** The keyword arguments of a call [Message(...)]; [None] is an
    argument left out. *)
Record Kwargs := {
  kw_id : option string;
  kw_type : option MessageType;
  kw_sender : option string;
  kw_receiver : option string;
  kw_reply_to : option string;
  kw_data : option MessageData
}.

Inductive Construction :=
| Built (m : Message)
| ValidationError (missing : list string).

(** What pydantic's validation of the union makes of a plain dictionary
    given as [data]: it tries the payload models on it, so a dictionary
    whose keys fit one of them becomes that payload, and another one
    stays a dictionary. The rule is pydantic's, not the repository's, and
    is left open here. *)
Class UnionValidation := validate_dict : gmap string PyVal -> MessageData.

(** The validation of the [data] argument: an instance of a payload model
    passes as it is, a plain dictionary goes through the union. *)
Definition validate_data `{UnionValidation} (d : option MessageData)
  : option MessageData :=
  match d with
  | Some (Dict d) => Some (validate_dict d)
  | Some (ContentData _) | Some (ContentStreamChunkData _) | Some (ErrorsData _)
  | None => d
  end.

(** The class body [id: str = str(uuid.uuid4())] is executed once, when
    the module is imported: the field default is the string drawn at
    that moment, [id_default] here, and [Message(...)] draws nothing.
    The only checks of the model are its field declarations: [type] and
    [sender] have no default and are required; [data] is validated against
    the union, or absent. Nothing relates [data] to [type]. *)
Definition Message_init `{UnionValidation} (id_default : string) (kw : Kwargs)
  : Construction :=
  match kw_type kw, kw_sender kw with
  | Some t, Some s =>
      Built {| id := default id_default (kw_id kw);
               type := t;
               sender := s;
               receiver := kw_receiver kw;
               reply_to := kw_reply_to kw;
               data := validate_data (kw_data kw) |}
  | None, Some _ => ValidationError ["type"]
  | Some _, None => ValidationError ["sender"]
  | None, None => ValidationError ["type"; "sender"]
  end.

(** The payload shape that the specification attaches to each message
    type (section 3 of the specification, not the code): [CONTENT] a
    content payload, [CONTENT_STREAM_CHUNK] a chunk payload, [ERRORS] an
    error list; the other types are given no shape. *)
Definition payload_matches (t : MessageType) (d : option MessageData) : bool :=
  match t, d with
  | CONTENT, Some (ContentData _) => true
  | CONTENT, _ => false
  | CONTENT_STREAM_CHUNK, Some (ContentStreamChunkData _) => true
  | CONTENT_STREAM_CHUNK, _ => false
  | ERRORS, Some (ErrorsData _) => true
  | ERRORS, _ => false
  | _, _ => true
  end.

End messages.

(** ** output_actor.py *)

Module output_actor.
Import messages.

(** The two collaborators of the aggregator that lie outside the
    repository's core: [render_template] of the liquid engine and
    [DiffMatchPatch.to_delta]. Both are pure; [None] stands for a call
    that raises. *)
Class Collaborators := {
  render_template : string -> PyVal -> option string;
  to_delta : string -> string -> option string
}.

(** What sits in [_content_queue]. The incremental fragment is a fresh
    dictionary [{"deltas": {"output": delta}, "chunk": {sender: chunk}}].
    The terminal success fragment is [{"output": self._int_output,
    "chunks": self._messages}]: its two entries are the actor's own
    dictionaries, not copies, and [reset] alone rebinds them, so within
    a run the fragment shows what these dictionaries hold when it is
    looked at ([fragment_value]). *)
Inductive Fragment :=
| Incremental (delta : string) (sender : string) (chunk : PyVal)
| TerminalSuccess.

(** The exceptions met: a missing attribute, a missing key, and whatever
    the renderer and the delta engine raise. *)
Inductive PyExc := AttributeError | KeyError | RenderError | DeltaError.

(** [self]: the constructor arguments first ([_dependencies] is kept by
    the base [Actor]; [on_receive] uses its set only), then the run state
    that [reset] initialises. [_output_stream] keeps the records handed to
    [bookkeep]. *)
Record OutputActor := {
  _dependencies : list string;
  _templates : gmap string string;
  _spread_output_for_keys : gset string;
  _stitched_data : PyVal;
  _int_output : gmap string string;
  _errors : option (list Error);
  _stopped : bool;
  _content_queue : list Fragment;
  _messages : gmap string PyVal;
  _output_stream : list (gmap string string)
}.

Definition set_stitched_data (v : PyVal) (self : OutputActor) : OutputActor :=
  {| _dependencies := _dependencies self; _templates := _templates self;
     _spread_output_for_keys := _spread_output_for_keys self;
     _stitched_data := v; _int_output := _int_output self;
     _errors := _errors self; _stopped := _stopped self;
     _content_queue := _content_queue self; _messages := _messages self;
     _output_stream := _output_stream self |}.

Definition set_int_output (o : gmap string string) (self : OutputActor) : OutputActor :=
  {| _dependencies := _dependencies self; _templates := _templates self;
     _spread_output_for_keys := _spread_output_for_keys self;
     _stitched_data := _stitched_data self; _int_output := o;
     _errors := _errors self; _stopped := _stopped self;
     _content_queue := _content_queue self; _messages := _messages self;
     _output_stream := _output_stream self |}.

Definition set_errors (e : option (list Error)) (self : OutputActor) : OutputActor :=
  {| _dependencies := _dependencies self; _templates := _templates self;
     _spread_output_for_keys := _spread_output_for_keys self;
     _stitched_data := _stitched_data self; _int_output := _int_output self;
     _errors := e; _stopped := _stopped self;
     _content_queue := _content_queue self; _messages := _messages self;
     _output_stream := _output_stream self |}.

Definition set_stopped (b : bool) (self : OutputActor) : OutputActor :=
  {| _dependencies := _dependencies self; _templates := _templates self;
     _spread_output_for_keys := _spread_output_for_keys self;
     _stitched_data := _stitched_data self; _int_output := _int_output self;
     _errors := _errors self; _stopped := b;
     _content_queue := _content_queue self; _messages := _messages self;
     _output_stream := _output_stream self |}.

Definition set_content_queue (q : list Fragment) (self : OutputActor) : OutputActor :=
  {| _dependencies := _dependencies self; _templates := _templates self;
     _spread_output_for_keys := _spread_output_for_keys self;
     _stitched_data := _stitched_data self; _int_output := _int_output self;
     _errors := _errors self; _stopped := _stopped self;
     _content_queue := q; _messages := _messages self;
     _output_stream := _output_stream self |}.

Definition set_messages (ms : gmap string PyVal) (self : OutputActor) : OutputActor :=
  {| _dependencies := _dependencies self; _templates := _templates self;
     _spread_output_for_keys := _spread_output_for_keys self;
     _stitched_data := _stitched_data self; _int_output := _int_output self;
     _errors := _errors self; _stopped := _stopped self;
     _content_queue := _content_queue self; _messages := ms;
     _output_stream := _output_stream self |}.

Definition set_output_stream (l : list (gmap string string)) (self : OutputActor) : OutputActor :=
  {| _dependencies := _dependencies self; _templates := _templates self;
     _spread_output_for_keys := _spread_output_for_keys self;
     _stitched_data := _stitched_data self; _int_output := _int_output self;
     _errors := _errors self; _stopped := _stopped self;
     _content_queue := _content_queue self; _messages := _messages self;
     _output_stream := l |}.

(** Modelled from the spec: [reset] of the base [Actor]
    ([llmstack/play/actor.py] is not among the sources). The fields of
    the aggregator are its own, and the bookkeeping sink is append-only
    and external: the base class leaves them as they are, the records
    made so far included. *)
Definition Actor_reset (self : OutputActor) : OutputActor := self.

(** [reset], lines 122 to 129: the six run fields afresh, then the
    [reset] of the base class. *)
Definition reset (self : OutputActor) : OutputActor :=
  Actor_reset
    {| _dependencies := _dependencies self; _templates := _templates self;
       _spread_output_for_keys := _spread_output_for_keys self;
       _stitched_data := VDict ∅; _int_output := ∅;
       _errors := None; _stopped := false;
       _content_queue := []; _messages := ∅;
       _output_stream := _output_stream self |}.

(** [__init__]: stores its arguments and calls [reset]; no bookkeeping
    record has been made for the new actor. *)
Definition init (dependencies : list string) (templates : gmap string string)
    (spread_output_for_keys : gset string) : OutputActor :=
  reset {| _dependencies := dependencies; _templates := templates;
           _spread_output_for_keys := spread_output_for_keys;
           _stitched_data := VNone; _int_output := ∅;
           _errors := None; _stopped := false;
           _content_queue := []; _messages := ∅;
           _output_stream := [] |}.

(** [_content_queue.put_nowait]: the queue is unbounded, the call never
    raises. *)
Definition put_nowait (f : Fragment) (self : OutputActor) : OutputActor :=
  set_content_queue (_content_queue self ++ [f]) self.

(** Modelled from the spec: [bookkeep] of the base [Actor]'s output
    stream ([llmstack/play/actor.py] is not among the sources). It is
    fire-and-forget: the snapshot joins the sink, the caller never sees
    a failure. *)
Definition bookkeep (self : OutputActor) : OutputActor :=
  set_output_stream (_output_stream self ++ [_int_output self]) self.

(** *** The body of a [try] block

    A computation over [self] that may raise: [inr e] comes with the
    actor as the statements before the failing one left it. *)
Definition Try (A : Type) : Type := OutputActor -> (A + PyExc) * OutputActor.

Definition ret {A} (a : A) : Try A := fun self => (inl a, self).
Definition bind {A B} (c : Try A) (k : A -> Try B) : Try B :=
  fun self =>
    match c self with
    | (inl a, self') => k a self'
    | (inr e, self') => (inr e, self')
    end.
Definition raise {A} (e : PyExc) : Try A := fun self => (inr e, self).
Definition read {A} (f : OutputActor -> A) : Try A := fun self => (inl (f self), self).
Definition assign (f : OutputActor -> OutputActor) : Try unit := fun self => (inl tt, f self).
Definition or_raise {A} (e : PyExc) (o : option A) : Try A :=
  match o with Some a => ret a | None => raise e end.

#[local] Instance Try_ret : MRet Try := @ret.
#[local] Instance Try_bind : MBind Try := fun A B k c => bind c k.

(** [try: body except Exception: log]: whatever the body raised, the
    handler only logs; the actor stays as the body left it. *)
Definition try_except (body : Try unit) (self : OutputActor) : OutputActor :=
  snd (body self).

(** [message.data.chunk]: an attribute that only a chunk payload has. *)
Definition data_chunk (m : Message) : option PyVal :=
  match data m with
  | Some (ContentStreamChunkData c) => Some c
  | _ => None
  end.

(** [message.data.content]. *)
Definition data_content (m : Message) : option PyVal :=
  match data m with
  | Some (ContentData c) => Some c
  | _ => None
  end.

(** [message.data.errors]. *)
Definition data_errors (m : Message) : option (list Error) :=
  match data m with
  | Some (ErrorsData es) => Some es
  | _ => None
  end.

(** [content.model_dump() if isinstance(content, BaseModel) else content] *)
Definition dump_content (c : PyVal) : PyVal :=
  match c with
  | VModel _ => model_dump c
  | _ => c
  end.

(** [set(self._dependencies) == set(self._messages.keys())] *)
Definition dependencies_met (self : OutputActor) : bool :=
  bool_decide (list_to_set (_dependencies self) =@{gset string} dom (_messages self)).

Inductive Outcome :=
| Returns (self : OutputActor)
| Raises (e : PyExc) (self : OutputActor).

Definition on_error (self : OutputActor) (sender : string) (errors : list Error)
  : OutputActor :=
  set_errors (Some errors) self.

(** [on_stop]: the flag, then the base class's [on_stop]. *)
Definition on_stop (self : OutputActor) : OutputActor :=
  set_stopped true self.

Section OnReceive.
Context `{Collaborators}.

(** Lines 56 to 75, the body of the [try]. *)
Definition stream_chunk_body (m : Message) : Try unit :=
  stitched ← read _stitched_data;
  spread ← read _spread_output_for_keys;
  chunk ← or_raise AttributeError (data_chunk m);
  assign (set_stitched_data
            (stitch_model_objects stitched
               (if bool_decide (sender m ∉ spread)
                then VDict {[ sender m := chunk ]}
                else chunk)));;
  templates ← read _templates;
  template ← or_raise KeyError (templates !! "output");
  stitched' ← read _stitched_data;
  new_int_output ← or_raise RenderError (render_template template stitched');
  int_output ← read _int_output;
  delta ← or_raise DeltaError
            (to_delta (default "" (int_output !! "output")) new_int_output);
  assign (fun self =>
            set_int_output (<["output" := new_int_output]> (_int_output self)) self);;
  assign bookkeep;;
  assign (put_nowait (Incremental delta (sender m) chunk)).

Definition on_receive (self : OutputActor) (m : Message) : Outcome :=
  match type m with
  | ERRORS =>
      match data_errors m with
      | Some errors => Returns (on_error self (sender m) errors)
      | None => Raises AttributeError self
      end
  | CONTENT_STREAM_CHUNK =>
      Returns (try_except (stream_chunk_body m) self)
  | CONTENT =>
      match data_content m with
      | Some content =>
          let self1 :=
            set_messages (<[sender m := dump_content content]> (_messages self)) self in
          if dependencies_met self1
          then Returns (put_nowait TerminalSuccess self1)
          else Returns self1
      | None => Raises AttributeError self
      end
  | _ => Returns self
  end.

(** The dispatch surface hands the messages over one at a time; a
    raising [on_receive] ends the delivery. *)
Fixpoint run (self : OutputActor) (ms : list Message) : Outcome :=
  match ms with
  | [] => Returns self
  | m :: ms' =>
      match on_receive self m with
      | Returns self' => run self' ms'
      | Raises e self' => Raises e self'
      end
  end.
End OnReceive.

(** *** get_output

    What the consumer is handed for a queued fragment. *)
Definition fragment_value (self : OutputActor) (f : Fragment) : PyVal :=
  match f with
  | Incremental delta sender chunk =>
      VDict {[ "deltas" := VDict {[ "output" := VStr delta ]};
               "chunk" := VDict {[ sender := chunk ]} ]}
  | TerminalSuccess =>
      VDict {[ "output" := VDict (VStr <$> _int_output self);
               "chunks" := VDict (_messages self) ]}
  end.

(** [if self._errors]: [None] and the empty list are both false. *)
Definition truthy (errors : option (list Error)) : bool :=
  match errors with
  | Some (_ :: _) => true
  | _ => false
  end.

(** [{"errors": [error.message for error in self._errors]}] *)
Definition errors_fragment (errors : list Error) : PyVal :=
  VDict {[ "errors" := VList ((fun error => VStr (message error)) <$> errors) ]}.

(** [{"errors": ["Output interrupted"]}] *)
Definition interrupted_fragment : PyVal :=
  VDict {[ "errors" := VList [VStr "Output interrupted"] ]}.

(** Where the asynchronous generator is suspended: not yet started, at
    the [yield output] of the loop (line 99), in [asyncio.sleep] (line
    104), at a [yield] of the [finally] block (lines 110 and 112), or
    finished. *)
Inductive Position := AtStart | AtYield | AtSleep | AtFinalYield | Finished.

(** What a resumption of the generator ends in: a fragment for the
    consumer, a suspension in [asyncio.sleep], or the end of the
    iteration. *)
Inductive Event :=
| Yield (v : PyVal)
| Sleep
| StopAsyncIteration.

(** The [finally] block: [if self._errors: yield ... elif self._stopped:
    yield ...], then the generator returns. *)
Definition finally_block (self : OutputActor) : Event * OutputActor * Position :=
  if truthy (_errors self)
  then (Yield (errors_fragment (default [] (_errors self))), self, AtFinalYield)
  else if _stopped self
       then (Yield interrupted_fragment, self, AtFinalYield)
       else (StopAsyncIteration, self, Finished).

(** [self._errors or self._stopped] *)
Definition errors_or_stopped (self : OutputActor) : bool :=
  truthy (_errors self) || _stopped self.

(** One turn of [while True]. *)
Definition loop_iteration (self : OutputActor) : Event * OutputActor * Position :=
  match _content_queue self with
  | output :: rest =>
      (Yield (fragment_value self output), set_content_queue rest self, AtYield)
  | [] =>
      if errors_or_stopped self
      then finally_block self
      else (Sleep, self, AtSleep)
  end.

(** The generator runs from where it is suspended to its next
    suspension. After [yield output] it calls [task_done] and loops;
    after a [yield] of the [finally] block it returns. *)
Definition resume (self : OutputActor) (pos : Position)
  : Event * OutputActor * Position :=
  match pos with
  | AtStart | AtYield | AtSleep => loop_iteration self
  | AtFinalYield | Finished => (StopAsyncIteration, self, Finished)
  end.

(** [asyncio.CancelledError] reaches the generator only where it awaits,
    in [asyncio.sleep]: the handler logs, then the [finally] block
    runs. *)
Definition cancel (self : OutputActor) (pos : Position)
  : option (Event * OutputActor * Position) :=
  match pos with
  | AtSleep => Some (finally_block self)
  | _ => None
  end.

(** The generator is resumed [n] times in a row, by the consumer after a
    [yield] and by the event loop after a sleep, nothing else touching the
    actor in between; the events, oldest first. *)
Fixpoint pull (n : nat) (self : OutputActor) (pos : Position)
  : list Event * OutputActor * Position :=
  match n with
  | O => ([], self, pos)
  | S n' =>
      let '(ev, self', pos') := resume self pos in
      let '(evs, self'', pos'') := pull n' self' pos' in
      (ev :: evs, self'', pos'')
  end.

Definition in_loop (pos : Position) : bool :=
  match pos with
  | AtStart | AtYield | AtSleep => true
  | AtFinalYield | Finished => false
  end.

Definition is_success (f : Fragment) : bool :=
  match f with
  | TerminalSuccess => true
  | Incremental _ _ _ => false
  end.

(** The terminal success fragments among queued fragments. *)
Definition count_success (q : list Fragment) : nat :=
  length (filter (fun f => is_success f = true) q).

Definition is_content (m : Message) : bool :=
  match type m with
  | CONTENT => true
  | _ => false
  end.

(** The senders of the [CONTENT] messages of a delivery, oldest first. *)
Definition content_senders (ms : list Message) : list string :=
  sender <$> filter (fun m => is_content m = true) ms.

(** What a delivery makes of the final contents on record: each
    [CONTENT] message overwrites its sender's entry with its dumped
    payload. *)
Definition contents_from (acc : gmap string PyVal) (ms : list Message)
  : gmap string PyVal :=
  foldl (fun acc m =>
           match is_content m, data_content m with
           | true, Some content => <[sender m := dump_content content]> acc
           | _, _ => acc
           end) acc ms.

Definition final_contents (ms : list Message) : gmap string PyVal :=
  contents_from ∅ ms.

(** The rendered output on record is empty, with no bookkeeping record
    made yet, or holds one text under ["output"] and is the latest
    bookkeeping record. *)
Definition rendered_once (self : OutputActor) : Prop :=
  (_int_output self = ∅ /\ _output_stream self = []) \/
  (exists text : string,
     _int_output self = {[ "output" := text ]} /\
     last (_output_stream self) = Some {[ "output" := text ]}).

(** [v[k]] for a dictionary [v]. *)
Definition getitem (v : PyVal) (k : string) : option PyVal :=
  match v with
  | VDict d => d !! k
  | _ => None
  end.

(** The second argument of [stitch_model_objects] on lines 58 to 62. *)
Definition contribution (self : OutputActor) (sender : string) (chunk : PyVal) : PyVal :=
  if bool_decide (sender ∉ _spread_output_for_keys self)
  then VDict {[ sender := chunk ]}
  else chunk.

(** A renderer for templates without tags, which render to their own
    text, and a delta engine that sends the next text whole. *)
Definition plain : Collaborators :=
  {| render_template := fun template _ => Some template;
     to_delta := fun _ next => Some next |}.

(** The actor as an outcome leaves it. *)
Definition actor_of (o : Outcome) : OutputActor :=
  match o with
  | Returns self => self
  | Raises _ self => self
  end.

(** A plain message, the id given. *)
Definition msg (t : MessageType) (s : string) (d : option MessageData) : Message :=
  {| id := "m"; type := t; sender := s; receiver := None; reply_to := None;
     data := d |}.

(** *** Calls on the actor, interleaved

    What happens to one aggregator over time: the dispatch surface calls
    [on_receive], the coordinator calls [on_stop], and the generator of
    [get_output] is resumed, in any order. *)
Inductive Action :=
| Deliver (m : Message)
| Stop
| Resume.

Definition is_call (a : Action) : bool :=
  match a with
  | Deliver _ | Stop => true
  | Resume => false
  end.

(** [output = self._content_queue.get_nowait()]: the fragment that the
    next resumption takes off the queue, if it takes one. *)
Definition next_fragment (self : OutputActor) (pos : Position) : option Fragment :=
  if in_loop pos then head (_content_queue self) else None.

Section Exec.
Context `{Collaborators}.

(** The actions one after the other. A raising [on_receive] leaves the
    actor as it was; the result lists the events of the resumptions and
    the fragments they took off the queue, oldest first. *)
Fixpoint exec (acts : list Action) (self : OutputActor) (pos : Position)
  : list Event * list Fragment * OutputActor * Position :=
  match acts with
  | [] => ([], [], self, pos)
  | Deliver m :: acts' => exec acts' (actor_of (on_receive self m)) pos
  | Stop :: acts' => exec acts' (on_stop self) pos
  | Resume :: acts' =>
      let '(ev, self', pos') := resume self pos in
      let '(evs, taken, self'', pos'') := exec acts' self' pos' in
      (ev :: evs, option_list (next_fragment self pos) ++ taken, self'', pos'')
  end.
End Exec.

(** The incremental fragments among queued fragments. *)
Definition count_incremental (q : list Fragment) : nat :=
  length (filter (fun f => is_success f = false) q).

(** What a consumer makes of the incremental fragments it received: each
    delta applied, in order, to the text it holds; [apply] is the inverse
    of the delta engine. *)
Definition apply_deltas (apply : string -> string -> string)
    (text : string) (q : list Fragment) : string :=
  foldl (fun text f =>
           match f with
           | Incremental delta _ _ => apply delta text
           | TerminalSuccess => text
           end) text q.

(** The message types that no branch of [on_receive] looks at. *)
Definition is_ignored (m : Message) : bool :=
  match type m with
  | BEGIN | CONTENT_STREAM_BEGIN | CONTENT_STREAM_END => true
  | _ => false
  end.

Definition is_errors (m : Message) : bool :=
  match type m with
  | ERRORS => true
  | _ => false
  end.

Definition is_chunk (m : Message) : bool :=
  match type m with
  | CONTENT_STREAM_CHUNK => true
  | _ => false
  end.

Section RenderedLast.
Context `{Collaborators}.

(** What the rendered output on record is after the delivery [ms] to the
    actor [fresh]: empty, no incremental fragment having been pushed; or
    one text under ["output"], which is what [render_template] made of the
    stitched document as the last chunk message that pushed an incremental
    fragment, [mc], left it. *)
Definition rendered_last (fresh : OutputActor) (ms : list Message)
    (self : OutputActor) : Prop :=
  (_int_output self = ∅ /\ count_incremental (_content_queue self) = 0) \/
  (exists before mc after s_b s_c template text delta chunk,
     ms = before ++ mc :: after /\
     run fresh before = Returns s_b /\
     on_receive s_b mc = Returns s_c /\
     type mc = CONTENT_STREAM_CHUNK /\
     data_chunk mc = Some chunk /\
     _templates fresh !! "output" = Some template /\
     _stitched_data s_c
     = stitch_model_objects (_stitched_data s_b)
         (contribution s_b (sender mc) chunk) /\
     render_template template (_stitched_data s_c) = Some text /\
     _content_queue s_c
     = _content_queue s_b ++ [Incremental delta (sender mc) chunk] /\
     _int_output self = {[ "output" := text ]} /\
     count_incremental (_content_queue self)
     = count_incremental (_content_queue s_c)).
End RenderedLast.

(** An outcome with the actor changed by [f]. *)
Definition map_outcome (f : OutputActor -> OutputActor) (o : Outcome) : Outcome :=
  match o with
  | Returns self => Returns (f self)
  | Raises e self => Raises e (f self)
  end.

End output_actor.

(** ** static_web_browser.py *)

Module static_web_browser.

Inductive BrowserInstructionType :=
| CLICK
| TYPE
| WAIT
| GOTO
| COPY
| TERMINATE
| ENTER
| SCROLLX
| SCROLLY
| MOUSE_MOVE
| KEY.

(** The string of each member. *)
Definition value (t : BrowserInstructionType) : string :=
  match t with
  | CLICK => "Click"
  | TYPE => "Type"
  | WAIT => "Wait"
  | GOTO => "Goto"
  | COPY => "Copy"
  | TERMINATE => "Terminate"
  | ENTER => "Enter"
  | SCROLLX => "Scrollx"
  | SCROLLY => "Scrolly"
  | MOUSE_MOVE => "Mousemove"
  | KEY => "Key"
  end.

Definition members : list BrowserInstructionType :=
  [CLICK; TYPE; WAIT; GOTO; COPY; TERMINATE; ENTER; SCROLLX; SCROLLY;
   MOUSE_MOVE; KEY].

(** [str.lower] and [str.capitalize] as Python has them on ASCII text:
    the letters [A] to [Z] and [a] to [z] change case, every other
    character stays. *)
Definition lower_char (c : Ascii.ascii) : Ascii.ascii :=
  let n := Ascii.nat_of_ascii c in
  if (65 <=? n)%nat && (n <=? 90)%nat then Ascii.ascii_of_nat (n + 32) else c.

Definition upper_char (c : Ascii.ascii) : Ascii.ascii :=
  let n := Ascii.nat_of_ascii c in
  if (97 <=? n)%nat && (n <=? 122)%nat then Ascii.ascii_of_nat (n - 32) else c.

Fixpoint lower (s : string) : string :=
  match s with
  | EmptyString => EmptyString
  | String c s' => String (lower_char c) (lower s')
  end.

Definition capitalize (s : string) : string :=
  match s with
  | EmptyString => EmptyString
  | String c s' => String (upper_char c) (lower s')
  end.

(** [validate_type]: runs on the validated member, which is a string, and
    returns [v.lower().capitalize()], a plain string. *)
Definition validate_type (v : BrowserInstructionType) : string :=
  capitalize (lower (value v)).

(** A [BrowserInstruction] as the model holds it: [type] is what the
    validator returned. *)
Record BrowserInstruction := {
  type : string;
  selector : option string;
  data : option string
}.

(** [BrowserInstruction(type=..., selector=..., data=...)] *)
Definition BrowserInstruction_init (t : BrowserInstructionType)
    (selector data : option string) : BrowserInstruction :=
  {| type := validate_type t; selector := selector; data := data |}.

(** The members of langrocks' [WebBrowserCommandType] that the processor
    names. *)
Inductive WebBrowserCommandType :=
| CMD_GOTO
| CMD_CLICK
| CMD_WAIT
| CMD_COPY
| CMD_SCROLL_X
| CMD_SCROLL_Y
| CMD_TERMINATE
| CMD_ENTER
| CMD_TYPE
| CMD_MOUSE_MOVE
| CMD_KEY.

(** A [WebBrowserCommand] of langrocks, once constructed: its
    [command_type] is a member of the enumeration. *)
Record WebBrowserCommand := {
  command_type : WebBrowserCommandType;
  command_data : string;
  command_selector : string
}.

(** What the validation of [WebBrowserCommand] makes of a string given as
    [command_type]: the member that the string stands for in langrocks'
    enumeration, or nothing, and then the construction fails. The rule is
    langrocks', not the repository's, and is left open here. *)
Class CommandValidation := command_type_of_string : string -> option WebBrowserCommandType.

Inductive CommandConstruction :=
| BuiltCommand (command : WebBrowserCommand)
| CommandValidationError (given : string).

(** [WebBrowserCommand(command_type=..., data=..., selector=...)]: a
    member is taken as it is, a string goes through the validation. *)
Definition WebBrowserCommand_init `{CommandValidation}
    (given_type : WebBrowserCommandType + string) (given_data given_selector : string)
  : CommandConstruction :=
  match given_type with
  | inl member =>
      BuiltCommand {| command_type := member; command_data := given_data;
                      command_selector := given_selector |}
  | inr given =>
      match command_type_of_string given with
      | Some member =>
          BuiltCommand {| command_type := member; command_data := given_data;
                          command_selector := given_selector |}
      | None => CommandValidationError given
      end
  end.

(** [x or ""] for an optional string. *)
Definition or_empty (x : option string) : string :=
  match x with
  | Some s => if String.eqb s "" then "" else s
  | None => ""
  end.

(** Lines 199 to 221: [instruction_type] after the chain of comparisons,
    a member of [WebBrowserCommandType], or the instruction's own type
    string when no branch matched. *)
Definition instruction_type (instruction : BrowserInstruction)
  : WebBrowserCommandType + string :=
  if String.eqb (type instruction) (value GOTO) then inl CMD_GOTO
  else if String.eqb (type instruction) (value CLICK) then inl CMD_CLICK
  else if String.eqb (type instruction) (value WAIT) then inl CMD_WAIT
  else if String.eqb (type instruction) (value COPY) then inl CMD_COPY
  else if String.eqb (type instruction) (value SCROLLX) then inl CMD_SCROLL_X
  else if String.eqb (type instruction) (value SCROLLY) then inl CMD_SCROLL_Y
  else if String.eqb (type instruction) (value TERMINATE) then inl CMD_TERMINATE
  else if String.eqb (type instruction) (value ENTER) then inl CMD_ENTER
  else if String.eqb (type instruction) (value TYPE) then inl CMD_TYPE
  else if String.eqb (type instruction) (value MOUSE_MOVE) then inl CMD_MOUSE_MOVE
  else if String.eqb (type instruction) (value KEY) then inl CMD_KEY
  else inr (type instruction).

(** Lines 223 to 225: the command constructed from it. *)
Definition _web_browser_instruction_to_command `{CommandValidation}
    (instruction : BrowserInstruction) : CommandConstruction :=
  WebBrowserCommand_init (instruction_type instruction)
    (or_empty (data instruction)) (or_empty (selector instruction)).

(** The command type that carries a member's name. *)
Definition like_named (t : BrowserInstructionType) : WebBrowserCommandType :=
  match t with
  | CLICK => CMD_CLICK
  | TYPE => CMD_TYPE
  | WAIT => CMD_WAIT
  | GOTO => CMD_GOTO
  | COPY => CMD_COPY
  | TERMINATE => CMD_TERMINATE
  | ENTER => CMD_ENTER
  | SCROLLX => CMD_SCROLL_X
  | SCROLLY => CMD_SCROLL_Y
  | MOUSE_MOVE => CMD_MOUSE_MOVE
  | KEY => CMD_KEY
  end.

End static_web_browser.

Import messages output_actor.

(** * Properties *)

(** ** The message envelope *)

Lemma Message_init_built `{UnionValidation} id_default kw m :
  Message_init id_default kw = Built m ->
  kw_type kw = Some (type m) /\ kw_sender kw = Some (sender m) /\
  id m = default id_default (kw_id kw) /\ data m = validate_data (kw_data kw).
Proof.
  unfold Message_init.
  destruct (kw_type kw) as [t|], (kw_sender kw) as [s|]; try discriminate.
  intros [= <-]. by simpl.
Qed.

(** C5, as the code has it: the default of [id] is one string, fixed when
    the class is defined, so any two messages built without an explicit
    id carry the same id, however they differ otherwise. *)
Theorem Message_default_id_is_shared `{UnionValidation}
    (id_default : string) (kw1 kw2 : Kwargs) (m1 m2 : Message) :
  kw_id kw1 = None ->
  kw_id kw2 = None ->
  Message_init id_default kw1 = Built m1 ->
  Message_init id_default kw2 = Built m2 ->
  id m1 = id_default /\ id m2 = id_default /\ id m1 = id m2.
Proof.
  intros Hid1 Hid2 H1 H2.
  apply Message_init_built in H1 as (_ & _ & E1 & _).
  apply Message_init_built in H2 as (_ & _ & E2 & _).
  rewrite Hid1 in E1. rewrite Hid2 in E2. simpl in E1, E2.
  by rewrite E1, E2.
Qed.

Lemma Message_default_id_is_shared_witness :
  let kwA := {| kw_id := None; kw_type := Some BEGIN; kw_sender := Some "A";
                kw_receiver := None; kw_reply_to := None; kw_data := None |} in
  let kwB := {| kw_id := None; kw_type := Some CONTENT; kw_sender := Some "B";
                kw_receiver := None; kw_reply_to := None;
                kw_data := Some (ContentData (VStr "done-B")) |} in
  let mA := {| id := "0b1e"; type := BEGIN; sender := "A"; receiver := None;
               reply_to := None; data := None |} in
  let mB := {| id := "0b1e"; type := CONTENT; sender := "B"; receiver := None;
               reply_to := None; data := Some (ContentData (VStr "done-B")) |} in
  mA <> mB /\
  forall V : UnionValidation,
    @Message_init V "0b1e" kwA = Built mA /\
    @Message_init V "0b1e" kwB = Built mB /\
    id mA = "0b1e" /\ id mB = "0b1e" /\ id mA = id mB.
Proof.
  split; [discriminate|].
  intros V. split; [reflexivity|]. split; [reflexivity|].
  exact (@Message_default_id_is_shared V "0b1e"
           {| kw_id := None; kw_type := Some BEGIN; kw_sender := Some "A";
              kw_receiver := None; kw_reply_to := None; kw_data := None |}
           {| kw_id := None; kw_type := Some CONTENT; kw_sender := Some "B";
              kw_receiver := None; kw_reply_to := None;
              kw_data := Some (ContentData (VStr "done-B")) |}
           _ _ eq_refl eq_refl eq_refl eq_refl).
Defined.

(** C6, as amended: construction checks that [type] and [sender] are
    given and nothing else. The payload is never compared with the type:
    an instance of a payload model, or no payload, is stored as it comes,
    and a plain dictionary is stored as the union validation leaves it,
    the same for every type; no pair of a type and a payload is refused. *)
Theorem Message_init_ignores_payload `{UnionValidation}
    (id_default : string) (kw : Kwargs) :
  match kw_type kw, kw_sender kw with
  | Some t, Some s =>
      exists m, Message_init id_default kw = Built m /\
                type m = t /\ sender m = s /\
                match kw_data kw with
                | Some (Dict d) => data m = Some (validate_dict d)
                | Some (ContentData content) => data m = Some (ContentData content)
                | Some (ContentStreamChunkData chunk) =>
                    data m = Some (ContentStreamChunkData chunk)
                | Some (ErrorsData errors) => data m = Some (ErrorsData errors)
                | None => data m = None
                end /\
                forall t', exists m',
                  Message_init id_default
                    {| kw_id := kw_id kw; kw_type := Some t';
                       kw_sender := kw_sender kw; kw_receiver := kw_receiver kw;
                       kw_reply_to := kw_reply_to kw; kw_data := kw_data kw |}
                  = Built m' /\ data m' = data m
  | _, _ => exists missing, Message_init id_default kw = ValidationError missing
  end.
Proof.
  unfold Message_init.
  destruct (kw_type kw) as [t|], (kw_sender kw) as [s|]; eauto.
  eexists. split; [done|]. simpl. split; [done|]. split; [done|]. split.
  - by destruct (kw_data kw) as [[]|].
  - intros t'. by eexists.
Qed.

(** C6, refuted as stated: a [CONTENT] message with a chunk payload is
    built, although the payload does not match the type; the failure comes
    later, when the aggregator receives it. *)
Lemma Message_init_mismatch_built :
  payload_matches CONTENT (Some (ContentStreamChunkData (VStr "x"))) = false /\
  (forall V : UnionValidation,
     @Message_init V "0b1e"
       {| kw_id := None; kw_type := Some CONTENT; kw_sender := Some "A";
          kw_receiver := None; kw_reply_to := None;
          kw_data := Some (ContentStreamChunkData (VStr "x")) |}
     = Built {| id := "0b1e"; type := CONTENT; sender := "A"; receiver := None;
                reply_to := None;
                data := Some (ContentStreamChunkData (VStr "x")) |}) /\
  @on_receive plain (init ["A"] ∅ ∅)
    {| id := "0b1e"; type := CONTENT; sender := "A"; receiver := None;
       reply_to := None; data := Some (ContentStreamChunkData (VStr "x")) |}
  = Raises AttributeError (init ["A"] ∅ ∅).
Proof. repeat split. Qed.

(** ** on_receive *)

Section Receive.
Context `{Collaborators}.

(** [on_receive] returns exactly when the payload of an [ERRORS] or
    [CONTENT] message has the attribute the branch reads. *)
Lemma on_receive_raises_iff (self : OutputActor) (m : Message) :
  (exists e self', on_receive self m = Raises e self') <->
  (type m = ERRORS /\ data_errors m = None) \/
  (type m = CONTENT /\ data_content m = None).
Proof.
  unfold on_receive. split.
  - intros (e & self' & Hr).
    destruct (type m); try discriminate.
    + destruct (data_content m); [|by right].
      by destruct (dependencies_met _).
    + destruct (data_errors m); [discriminate|by left].
  - intros [[-> ->]|[-> ->]]; eauto.
Qed.

Lemma on_receive_raises_unchanged (self self' : OutputActor) (m : Message) e :
  on_receive self m = Raises e self' -> self' = self /\ e = AttributeError.
Proof.
  unfold on_receive.
  destruct (type m); try discriminate.
  - destruct (data_content m); [|by intros [= <- <-]].
    by destruct (dependencies_met _).
  - destruct (data_errors m); [discriminate|by intros [= <- <-]].
Qed.
End Receive.

(** C7, as the code has it: [on_receive] reads [message.data.errors]
    outside any [try]. An [ERRORS] message whose payload is absent (the
    default of [data]), a plain dictionary, or a content or chunk payload
    makes it raise [AttributeError] to its caller, the actor unchanged;
    only the chunk branch is guarded. *)
Theorem on_receive_raises_on_errors_without_error_list
    `{Collaborators} (self : OutputActor)
    (i s : string) (r rt : option string) (d : option MessageData) :
  on_receive self
    {| id := i; type := ERRORS; sender := s; receiver := r; reply_to := rt;
       data := d |}
  = match d with
    | Some (ErrorsData errors) => Returns (on_error self s errors)
    | None | Some (Dict _) | Some (ContentData _) | Some (ContentStreamChunkData _) =>
        Raises AttributeError self
    end.
Proof. by destruct d as [[]|]. Qed.

(** ** Steps of on_receive *)

Section Steps.
Context `{Collaborators}.

(** The guarded chunk branch, case by case: the payload has no [chunk]
    and nothing happens; or the chunk is merged and a later statement
    raises; or the whole body runs. *)
Lemma stream_chunk_cases (self : OutputActor) (m : Message) :
  let self' := try_except (stream_chunk_body m) self in
  match data_chunk m with
  | None => self' = self
  | Some chunk =>
      let merged :=
        set_stitched_data
          (stitch_model_objects (_stitched_data self)
             (contribution self (sender m) chunk)) self in
      match _templates self !! "output" with
      | None => self' = merged
      | Some template =>
          match render_template template (_stitched_data merged) with
          | None => self' = merged
          | Some new_int_output =>
              match to_delta (default "" (_int_output self !! "output"))
                      new_int_output with
              | None => self' = merged
              | Some delta =>
                  self' = put_nowait (Incremental delta (sender m) chunk)
                            (bookkeep
                               (set_int_output
                                  (<["output" := new_int_output]> (_int_output self))
                                  merged))
              end
          end
      end
  end.
Proof.
  unfold try_except, stream_chunk_body, contribution; simpl.
  unfold mbind, Try_bind, bind, read, assign, or_raise, ret, raise; simpl.
  destruct (data_chunk m) as [chunk|]; simpl; [|done].
  destruct (_templates self !! "output") as [template|]; simpl; [|done].
  destruct (render_template template _) as [new|]; simpl; [|done].
  destruct (to_delta _ new) as [delta|]; simpl; done.
Qed.

End Steps.

(** Splits a goal about the chunk branch along [stream_chunk_cases]; the
    equation of each case is rewritten into the goal. *)
Ltac chunk_cases self m :=
  let Hc := fresh "Hc" in
  pose proof (stream_chunk_cases self m) as Hc; simpl in Hc;
  destruct (data_chunk m) as [?chunk|] eqn:?Hchunk;
    [destruct (_templates self !! "output") as [?template|] eqn:?Htemplate;
       [destruct (render_template _ _) as [?new|] eqn:?Hrender in Hc;
          [destruct (to_delta _ _) as [?delta|] eqn:?Hdelta in Hc|]|]|];
  rewrite Hc; clear Hc.

Section Frame.
Context `{Collaborators}.

(** What the chunk branch never touches, and what it adds to the queue. *)
Lemma stream_chunk_frame (self : OutputActor) (m : Message) :
  let self' := try_except (stream_chunk_body m) self in
  _dependencies self' = _dependencies self /\
  _templates self' = _templates self /\
  _spread_output_for_keys self' = _spread_output_for_keys self /\
  _messages self' = _messages self /\
  _errors self' = _errors self /\
  _stopped self' = _stopped self /\
  exists fs, _content_queue self' = _content_queue self ++ fs /\
             count_success fs = 0.
Proof.
  intros self'. subst self'.
  assert (Hnil : exists fs, _content_queue self = _content_queue self ++ fs /\
                            count_success fs = 0)
    by (exists []; by rewrite app_nil_r).
  chunk_cases self m; simpl; repeat split; eauto.
Qed.

Lemma count_success_app (q1 q2 : list Fragment) :
  count_success (q1 ++ q2) = count_success q1 + count_success q2.
Proof. unfold count_success. by rewrite filter_app, length_app. Qed.

(** One message: the dependencies stay, the senders on record grow by
    the sender of a [CONTENT] message, and a terminal success fragment
    is pushed exactly by a [CONTENT] message after which the senders on
    record are the dependency set. *)
Lemma on_receive_step (self self' : OutputActor) (m : Message) :
  on_receive self m = Returns self' ->
  _dependencies self' = _dependencies self /\
  dom (_messages self') =
    (if is_content m then {[ sender m ]} ∪ dom (_messages self)
     else dom (_messages self)) /\
  exists fs, _content_queue self' = _content_queue self ++ fs /\
             count_success fs =
               (if is_content m && dependencies_met self' then 1 else 0).
Proof.
  unfold on_receive, is_content.
  destruct (type m) eqn:Ht; simpl.
  - intros [= <-]. repeat split. exists []. by rewrite app_nil_r.
  - destruct (data_content m) as [content|]; [|discriminate].
    set (self1 := set_messages _ self).
    destruct (dependencies_met self1) eqn:Hmet; intros [= <-].
    + assert (dependencies_met (put_nowait TerminalSuccess self1) = true) as ->
        by done.
      repeat split; [by subst self1; simpl; rewrite dom_insert_L|].
      by exists [TerminalSuccess].
    + rewrite Hmet. simpl.
      repeat split; [by subst self1; simpl; rewrite dom_insert_L|].
      exists []. by rewrite app_nil_r.
  - intros [= <-].
    destruct (stream_chunk_frame self m) as (Hd & _ & _ & Hm & _ & _ & fs & Hq & Hc).
    split; [done|]. split; [by rewrite Hm|]. by exists fs.
  - intros [= <-]. repeat split. exists []. by rewrite app_nil_r.
  - intros [= <-]. repeat split. exists []. by rewrite app_nil_r.
  - destruct (data_errors m) as [errors|]; [|discriminate].
    intros [= <-]. repeat split. exists []. by rewrite app_nil_r.
Qed.

Lemma dependencies_met_spec (self : OutputActor) :
  dependencies_met self = true <->
  list_to_set (_dependencies self) =@{gset string} dom (_messages self).
Proof. unfold dependencies_met. apply bool_decide_eq_true. Qed.

Lemma content_senders_cons (m : Message) (ms : list Message) :
  content_senders (m :: ms) =
    if is_content m then sender m :: content_senders ms else content_senders ms.
Proof.
  unfold content_senders. rewrite filter_cons.
  destruct (is_content m) eqn:E; case_decide; first [done | congruence].
Qed.
End Frame.

(** ** Deliveries *)

Section Deliveries.
Context `{Collaborators}.

(** A [CONTENT] message that completes the dependency set pushes the
    terminal success fragment, and nothing else. *)
Lemma on_receive_completing (self self' : OutputActor) (m : Message) :
  on_receive self m = Returns self' ->
  is_content m = true ->
  dependencies_met self' = true ->
  _content_queue self' = _content_queue self ++ [TerminalSuccess].
Proof.
  unfold on_receive, is_content.
  destruct (type m); try discriminate.
  destruct (data_content m) as [content|]; [|discriminate].
  set (self1 := set_messages _ self).
  destruct (dependencies_met self1) eqn:Hmet; intros [= <-] _; [done|].
  congruence.
Qed.

(** Over a delivery the senders on record only grow, and a terminal
    success fragment is pushed only at a moment when the senders on
    record are exactly the dependency set. *)
Lemma run_pushed (ms : list Message) (self self' : OutputActor) :
  run self ms = Returns self' ->
  _dependencies self' = _dependencies self /\
  dom (_messages self') = dom (_messages self) ∪ list_to_set (content_senders ms) /\
  exists fs, _content_queue self' = _content_queue self ++ fs /\
    (count_success fs <> 0 ->
     exists S : gset string,
       dom (_messages self) ⊆ S /\ S ⊆ dom (_messages self') /\
       list_to_set (_dependencies self) = S).
Proof.
  revert self. induction ms as [|m ms IH]; intros self; simpl.
  - intros [= <-]. split; [done|]. split; [set_solver|].
    exists []. rewrite app_nil_r. split; [done|]. by intros [].
  - destruct (on_receive self m) as [self1|] eqn:Hm; [|discriminate].
    intros Hrun.
    destruct (on_receive_step _ _ _ Hm) as (Hd1 & Hdom1 & fs1 & Hq1 & Hc1).
    destruct (IH _ Hrun) as (Hd2 & Hdom2 & fs2 & Hq2 & Hc2).
    split; [congruence|].
    rewrite content_senders_cons.
    split.
    { rewrite Hdom2, Hdom1. destruct (is_content m); set_solver. }
    exists (fs1 ++ fs2). split; [by rewrite Hq2, Hq1, app_assoc|].
    rewrite count_success_app. intros Hcount.
    destruct (decide (count_success fs1 = 0)) as [Hz|Hnz].
    + destruct Hc2 as (S & HS1 & HS2 & HS3); [lia|].
      exists S. rewrite <- Hd1. split; [|done].
      rewrite Hdom1 in HS1. destruct (is_content m); set_solver.
    + destruct (is_content m) eqn:Hcontent; simpl in Hc1; [|lia].
      destruct (dependencies_met self1) eqn:Hmet; [|lia].
      apply dependencies_met_spec in Hmet.
      exists (dom (_messages self1)). rewrite <- Hd1.
      split; [rewrite Hdom1; set_solver|]. split; [set_solver|done].
Qed.

(** When every [CONTENT] message comes from a dependency not yet on
    record and no sender delivers twice, the delivery pushes one
    terminal success fragment if it completes the dependency set, and
    none otherwise. *)
Lemma run_count (ms : list Message) (self self' : OutputActor) :
  run self ms = Returns self' ->
  NoDup (content_senders ms) ->
  (forall x, x ∈ content_senders ms ->
             x ∈ _dependencies self /\ x ∉ dom (_messages self)) ->
  exists fs, _content_queue self' = _content_queue self ++ fs /\
    count_success fs =
      if bool_decide (content_senders ms <> [] /\
                      list_to_set (_dependencies self) =@{gset string}
                        dom (_messages self) ∪ list_to_set (content_senders ms))
      then 1 else 0.
Proof.
  revert self. induction ms as [|m ms IH]; intros self; cbn [run].
  - intros [= <-] _ _. exists []. rewrite app_nil_r. split; [done|].
    rewrite bool_decide_eq_false_2; [done|]. by intros [[] _].
  - destruct (on_receive self m) as [self1|] eqn:Hm; [|discriminate].
    intros Hrun. rewrite content_senders_cons.
    destruct (on_receive_step _ _ _ Hm) as (Hd1 & Hdom1 & fs1 & Hq1 & Hc1).
    destruct (is_content m) eqn:Hcontent; simpl in Hc1.
    + intros [Hfresh Hnd]%NoDup_cons Hin.
      destruct (IH _ Hrun Hnd) as (fs2 & Hq2 & Hc2).
      { intros y Hy. rewrite Hd1, Hdom1.
        destruct (Hin y) as [? ?]; [set_solver|].
        split; [done|]. set_solver. }
      exists (fs1 ++ fs2). split; [by rewrite Hq2, Hq1, app_assoc|].
      rewrite count_success_app, Hc1, Hc2.
      unfold dependencies_met. rewrite Hd1, Hdom1, list_to_set_cons.
      assert (Hex : content_senders ms <> [] ->
                    list_to_set (_dependencies self)
                      ≠@{gset string} {[sender m]} ∪ dom (_messages self)).
      { intros Hne Heq.
        destruct (content_senders ms) as [|y ys]; [done|].
        destruct (Hin y) as [Hy1 Hy2]; [set_solver|].
        apply (elem_of_list_to_set (C:=gset string)) in Hy1.
        rewrite Heq in Hy1. set_solver. }
      assert (Hnil : content_senders ms = [] ->
                     (list_to_set (content_senders ms) : gset string) = ∅)
        by (by intros ->).
      clear IH Hc1 Hc2.
      destruct (decide (content_senders ms = [])) as [Hcs|Hcs].
      * rewrite (Hnil Hcs).
        repeat case_bool_decide; try done; exfalso; destruct_and?; try done;
          match goal with
          | Hn : ¬ _ |- _ =>
              solve [apply Hn; first [split; [done|] | idtac]; set_solver]
          end.
      * specialize (Hex Hcs).
        repeat case_bool_decide; try done; exfalso; destruct_and?; try done;
          match goal with
          | Hn : ¬ _ |- _ =>
              solve [apply Hn; first [split; [done|] | idtac]; set_solver]
          end.
    + intros Hnd Hin.
      destruct (IH _ Hrun Hnd) as (fs2 & Hq2 & Hc2).
      { intros y Hy. rewrite Hd1, Hdom1. by apply Hin. }
      exists (fs1 ++ fs2). split; [by rewrite Hq2, Hq1, app_assoc|].
      by rewrite count_success_app, Hc1, Hc2, Hd1, Hdom1.
Qed.

(** A delivery that raises has processed the messages before the raising
    one, and the actor is as they left it. *)
Lemma run_prefix (ms : list Message) (self : OutputActor) :
  exists ms1 ms2,
    ms = ms1 ++ ms2 /\ run self ms1 = Returns (actor_of (run self ms)).
Proof.
  revert self. induction ms as [|m ms IH]; intros self; cbn [run].
  - by exists [], [].
  - destruct (on_receive self m) as [self1|e self1] eqn:Hm.
    + destruct (IH self1) as (ms1 & ms2 & -> & Hrun).
      exists (m :: ms1), ms2. split; [done|]. cbn [run]. by rewrite Hm.
    + apply on_receive_raises_unchanged in Hm as [-> _].
      by exists [], (m :: ms).
Qed.

Lemma content_senders_app (ms1 ms2 : list Message) :
  content_senders (ms1 ++ ms2) = content_senders ms1 ++ content_senders ms2.
Proof. unfold content_senders. by rewrite filter_app, fmap_app. Qed.
End Deliveries.

(** ** Completion *)

(** C1, as amended: over any delivery to a fresh aggregator, no terminal
    success fragment is in the buffer while a dependency has not delivered
    [CONTENT]; a [CONTENT] message after which the senders on record are
    the dependency set pushes the terminal success fragment at once; and
    when the [CONTENT] messages come from dependencies only, one per
    sender, in whatever order and with whatever else in between, a delivery
    in which every dependency delivers pushes exactly one. *)
Theorem completion_gating `{Collaborators}
    (dependencies : list string) (templates : gmap string string)
    (spread : gset string) (ms : list Message) :
  let self' := actor_of (run (init dependencies templates spread) ms) in
  ((exists d, d ∈ dependencies /\ d ∉ content_senders ms) ->
   count_success (_content_queue self') = 0) /\
  (forall m self'',
     on_receive self' m = Returns self'' ->
     is_content m = true ->
     list_to_set dependencies =@{gset string} dom (_messages self'') ->
     _content_queue self'' = _content_queue self' ++ [TerminalSuccess]) /\
  (run (init dependencies templates spread) ms = Returns self' ->
   NoDup (content_senders ms) ->
   (forall x, x ∈ content_senders ms -> x ∈ dependencies) ->
   dependencies <> [] ->
   (forall d, d ∈ dependencies -> d ∈ content_senders ms) ->
   count_success (_content_queue self') = 1).
Proof.
  intros self'.
  destruct (run_prefix ms (init dependencies templates spread))
    as (ms1 & ms2 & Hms & Hrun1).
  fold self' in Hrun1.
  destruct (run_pushed _ _ _ Hrun1) as (Hd & Hdom & fs & Hq & Hpush).
  simpl in Hd, Hdom, Hq, Hpush. subst fs.
  split; [|split].
  - intros (d & Hd1 & Hd2).
    destruct (decide (count_success (_content_queue self') = 0)) as [|Hnz]; [done|].
    destruct (Hpush Hnz) as (S & _ & HS & HD).
    assert (d ∈ S) by (rewrite <- HD; by apply elem_of_list_to_set).
    assert (d ∈ dom (_messages self')) as Hin by set_solver.
    rewrite Hdom in Hin. rewrite Hms, content_senders_app in Hd2. set_solver.
  - intros m self'' Hm Hcontent Hmet.
    apply (on_receive_completing _ _ _ Hm Hcontent).
    apply dependencies_met_spec.
    destruct (on_receive_step _ _ _ Hm) as (Hd' & _). by rewrite Hd', Hd.
  - intros Hrun Hnd Hsub Hne Hall.
    destruct (run_count _ _ _ Hrun Hnd) as (fs & Hq' & Hc).
    { intros x Hx. simpl. split; [by apply Hsub|set_solver]. }
    simpl in Hq', Hc. subst fs. rewrite Hc.
    rewrite bool_decide_eq_true_2; [done|]. split.
    + destruct dependencies as [|d ds]; [done|].
      intros Hnil. specialize (Hall d). rewrite Hnil in Hall. set_solver.
    + apply set_eq. intros x. rewrite elem_of_list_to_set. set_solver.
Qed.

Lemma completion_gating_witness :
  let deps := ["A"; "B"] in
  let templates : gmap string string := {[ "output" := "done" ]} in
  let chunkA := msg CONTENT_STREAM_CHUNK "A"
                  (Some (ContentStreamChunkData (VDict {[ "x" := VInt 1 ]}))) in
  let doneA := msg CONTENT "A" (Some (ContentData (VStr "done-A"))) in
  let doneB := msg CONTENT "B" (Some (ContentData (VStr "done-B"))) in
  count_success
    (_content_queue
       (actor_of (@run plain (init deps templates ∅) [doneB; chunkA]))) = 0 /\
  count_success
    (_content_queue
       (actor_of (@run plain (init deps templates ∅) [doneB; chunkA; doneA]))) = 1 /\
  count_success
    (_content_queue
       (actor_of (@run plain (init deps templates ∅) [chunkA; doneA; doneB]))) = 1.
Proof.
  intros deps templates chunkA doneA doneB.
  split; [|split].
  - refine (proj1 (@completion_gating plain deps templates ∅ [doneB; chunkA]) _).
    exists "A". split; [set_solver|]. vm_compute. set_solver.
  - refine (proj2 (proj2 (@completion_gating plain deps templates ∅
                            [doneB; chunkA; doneA])) _ _ _ _ _).
    + vm_compute. reflexivity.
    + vm_compute. repeat constructor; set_solver.
    + vm_compute. set_solver.
    + discriminate.
    + vm_compute. set_solver.
  - refine (proj2 (proj2 (@completion_gating plain deps templates ∅
                            [chunkA; doneA; doneB])) _ _ _ _ _).
    + vm_compute. reflexivity.
    + vm_compute. repeat constructor; set_solver.
    + vm_compute. set_solver.
    + discriminate.
    + vm_compute. set_solver.
Defined.

(** C1, refuted as stated: with dependencies [{A}], a [CONTENT] message of
    a sender [X] outside them followed by the [CONTENT] message of [A]
    leaves every dependency delivered and no terminal success fragment
    pushed; and with dependencies [{A, B}], a second [CONTENT] message of
    [A] after completion pushes a second terminal success fragment. *)
Lemma completion_gating_counterexample :
  let doneX := msg CONTENT "X" (Some (ContentData (VStr "done-X"))) in
  let doneA := msg CONTENT "A" (Some (ContentData (VStr "done-A"))) in
  let doneB := msg CONTENT "B" (Some (ContentData (VStr "done-B"))) in
  @run plain (init ["A"] ∅ ∅) [doneX; doneA]
  = Returns (set_messages {[ "X" := VStr "done-X"; "A" := VStr "done-A" ]}
               (init ["A"] ∅ ∅)) /\
  count_success
    (_content_queue (actor_of (@run plain (init ["A"] ∅ ∅) [doneX; doneA]))) = 0 /\
  _content_queue (actor_of (@run plain (init ["A"; "B"] ∅ ∅) [doneA; doneB; doneA]))
  = [TerminalSuccess; TerminalSuccess].
Proof. vm_compute. repeat split. Qed.

(** C10: once a sender outside the dependency set has delivered [CONTENT],
    that message and every later one push no terminal success fragment,
    up to the end of the delivery or to the message on which
    [on_receive] raises. *)
Theorem foreign_content_blocks_completion `{Collaborators}
    (self self1 : OutputActor) (m : Message) (ms : list Message) :
  is_content m = true ->
  sender m ∉ _dependencies self ->
  on_receive self m = Returns self1 ->
  exists fs,
    _content_queue (actor_of (run self1 ms)) = _content_queue self ++ fs /\
    count_success fs = 0.
Proof.
  intros Hcontent Hforeign Hm.
  destruct (run_prefix ms self1) as (ms1 & ms2 & _ & Hrun).
  destruct (on_receive_step _ _ _ Hm) as (Hd1 & Hdom1 & fs1 & Hq1 & Hc1).
  destruct (run_pushed _ _ _ Hrun) as (Hd2 & Hdom2 & fs2 & Hq2 & Hpush).
  rewrite Hcontent in Hdom1, Hc1. simpl in Hc1.
  assert (Hnot : forall S : gset string,
             sender m ∈ S -> list_to_set (_dependencies self) ≠ S).
  { intros S HS Heq. rewrite <- Heq in HS.
    by apply elem_of_list_to_set in HS. }
  exists (fs1 ++ fs2). split; [by rewrite Hq2, Hq1, app_assoc|].
  rewrite count_success_app.
  assert (count_success fs1 = 0) as ->.
  { destruct (dependencies_met self1) eqn:Hmet; [|done].
    apply dependencies_met_spec in Hmet. rewrite Hd1 in Hmet.
    exfalso. apply (Hnot (dom (_messages self1))); [|done].
    rewrite Hdom1. set_solver. }
  destruct (decide (count_success fs2 = 0)) as [->|Hnz]; [done|].
  destruct (Hpush Hnz) as (S & HS1 & _ & HS2).
  rewrite Hd1 in HS2. exfalso. apply (Hnot S); [|done].
  apply HS1. rewrite Hdom1. set_solver.
Qed.

Lemma foreign_content_blocks_completion_witness :
  let doneX := msg CONTENT "X" (Some (ContentData (VStr "done-X"))) in
  let doneA := msg CONTENT "A" (Some (ContentData (VStr "done-A"))) in
  let self1 := actor_of (@on_receive plain (init ["A"] ∅ ∅) doneX) in
  exists fs,
    _content_queue (actor_of (@run plain self1 [doneA; doneA]))
    = _content_queue (init ["A"] ∅ ∅) ++ fs /\
    count_success fs = 0.
Proof.
  intros doneX doneA self1.
  refine (@foreign_content_blocks_completion plain (init ["A"] ∅ ∅)
            self1 doneX [doneA; doneA] _ _ _).
  - reflexivity.
  - vm_compute. set_solver.
  - vm_compute. reflexivity.
Defined.

(** ** The terminal success fragment *)

Lemma count_incremental_app (q1 q2 : list Fragment) :
  count_incremental (q1 ++ q2) = count_incremental q1 + count_incremental q2.
Proof. unfold count_incremental. by rewrite filter_app, length_app. Qed.

Lemma count_incremental_quiet (fs : list Fragment) :
  fs = [] \/ fs = [TerminalSuccess] -> count_incremental fs = 0.
Proof. by intros [-> | ->]. Qed.

Lemma count_incremental_one (delta sender : string) (chunk : PyVal) :
  count_incremental [Incremental delta sender chunk] = 1.
Proof. done. Qed.

Section Shape.
Context `{Collaborators}.

Lemma on_receive_messages (self self' : OutputActor) (m : Message) :
  on_receive self m = Returns self' ->
  _messages self' = contents_from (_messages self) [m].
Proof.
  unfold on_receive, contents_from, is_content; simpl.
  destruct (type m) eqn:Ht; simpl; try (by intros [= <-]).
  - destruct (data_content m) as [content|]; [|discriminate].
    by destruct (dependencies_met _); intros [= <-].
  - intros [= <-].
    by destruct (stream_chunk_frame self m) as (_ & _ & _ & Hm & _).
  - destruct (data_errors m); [|discriminate]. by intros [= <-].
Qed.

Lemma run_messages (ms : list Message) (self self' : OutputActor) :
  run self ms = Returns self' ->
  _messages self' = contents_from (_messages self) ms.
Proof.
  revert self. induction ms as [|m ms IH]; intros self; cbn [run].
  - by intros [= <-].
  - destruct (on_receive self m) as [self1|] eqn:Hm; [|discriminate].
    intros Hrun. rewrite (IH _ Hrun), (on_receive_messages _ _ _ Hm). done.
Qed.

Lemma on_receive_rendered (self self' : OutputActor) (m : Message) :
  on_receive self m = Returns self' ->
  rendered_once self -> rendered_once self'.
Proof.
  unfold on_receive.
  destruct (type m) eqn:Ht; try (by intros [= <-]).
  - destruct (data_content m) as [content|]; [|discriminate].
    by destruct (dependencies_met _); intros [= <-].
  - intros [= <-] Hr. chunk_cases self m; try done.
    right. exists new. unfold rendered_once in Hr. simpl.
    rewrite last_snoc.
    destruct Hr as [[-> _]|(text & -> & _)].
    + by rewrite insert_empty.
    + by rewrite insert_singleton.
  - destruct (data_errors m); [|discriminate]. by intros [= <-].
Qed.

Lemma run_rendered (ms : list Message) (self self' : OutputActor) :
  run self ms = Returns self' ->
  rendered_once self -> rendered_once self'.
Proof.
  revert self. induction ms as [|m ms IH]; intros self; cbn [run].
  - by intros [= <-].
  - destruct (on_receive self m) as [self1|] eqn:Hm; [|discriminate].
    intros Hrun Hr. eapply IH; [done|]. by eapply on_receive_rendered.
Qed.

(** A delivery in two parts. *)
Lemma run_app (ms1 ms2 : list Message) (self : OutputActor) :
  run self (ms1 ++ ms2)
  = match run self ms1 with
    | Returns self1 => run self1 ms2
    | Raises e self1 => Raises e self1
    end.
Proof.
  revert self. induction ms1 as [|m ms1 IH]; intros self; cbn [app run]; [done|].
  destruct (on_receive self m); [apply IH|done].
Qed.

Lemma run_templates (ms : list Message) (self self' : OutputActor) :
  run self ms = Returns self' -> _templates self' = _templates self.
Proof.
  revert self. induction ms as [|m ms IH]; intros self; cbn [run].
  - by intros [= <-].
  - destruct (on_receive self m) as [self1|] eqn:Hm; [|discriminate].
    intros Hrun. rewrite (IH _ Hrun). clear IH Hrun.
    unfold on_receive in Hm.
    destruct (type m); try (by injection Hm as <-).
    + destruct (data_content m); [|discriminate].
      by destruct (dependencies_met _); injection Hm as <-.
    + injection Hm as <-.
      by destruct (stream_chunk_frame self m) as (_ & ? & _).
    + destruct (data_errors m); [|discriminate]. by injection Hm as <-.
Qed.

(** One returning call, as far as the rendered output goes: it is left
    alone and no incremental fragment is pushed; or the message is a chunk
    message whose chunk was merged, the merged document rendered, and the
    text recorded with its incremental fragment pushed. *)
Lemma on_receive_last_rendering (s self : OutputActor) (m : Message) :
  on_receive s m = Returns self ->
  (_int_output self = _int_output s /\
   count_incremental (_content_queue self) = count_incremental (_content_queue s)) \/
  (exists template text delta chunk,
     type m = CONTENT_STREAM_CHUNK /\
     data_chunk m = Some chunk /\
     _templates s !! "output" = Some template /\
     _stitched_data self
     = stitch_model_objects (_stitched_data s) (contribution s (sender m) chunk) /\
     render_template template (_stitched_data self) = Some text /\
     _content_queue self = _content_queue s ++ [Incremental delta (sender m) chunk] /\
     _int_output self = <["output" := text]> (_int_output s)).
Proof.
  unfold on_receive.
  destruct (type m) eqn:Ht; try (intros [= <-]; by left).
  - destruct (data_content m) as [content|]; [|discriminate].
    destruct (dependencies_met _); intros [= <-]; left; [|done].
    split; [done|]. simpl. rewrite count_incremental_app.
    rewrite (count_incremental_quiet [TerminalSuccess]); [lia|by right].
  - intros [= <-].
    pose proof (stream_chunk_cases s m) as Hc. simpl in Hc.
    destruct (data_chunk m) as [chunk|]; [|rewrite Hc; by left].
    destruct (_templates s !! "output") as [template|] eqn:Htpl;
      [|rewrite Hc; by left].
    destruct (render_template template _) as [text|] eqn:Hrender;
      [|rewrite Hc; by left].
    destruct (to_delta _ text) as [delta|] eqn:Hdelta; [|rewrite Hc; by left].
    rewrite Hc. right. exists template, text, delta, chunk. by repeat split.
  - destruct (data_errors m); [|discriminate]. intros [= <-]. by left.
Qed.

(** The rendered output on record is the rendering made for the last
    chunk that pushed an incremental fragment. *)
Lemma run_rendered_last (ms : list Message) (fresh self : OutputActor) :
  _int_output fresh = ∅ ->
  count_incremental (_content_queue fresh) = 0 ->
  run fresh ms = Returns self ->
  rendered_last fresh ms self.
Proof.
  intros Hout Hcount. revert self.
  induction ms as [|m ms IH] using rev_ind; intros self.
  - intros [= <-]. by left.
  - rewrite run_app.
    destruct (run fresh ms) as [s|] eqn:Hrun; [|discriminate].
    cbn [run]. destruct (on_receive s m) as [s'|] eqn:Hm; [|discriminate].
    intros [= <-]. specialize (IH s eq_refl).
    destruct (on_receive_last_rendering _ _ _ Hm)
      as [[Hi Hc]|(template & text & delta & chunk & Ht & Hd & Htpl & Hst & Hr & Hq & Hi)].
    + destruct IH as [[Ho Hz]|(before & mc & after & s_b & s_c & template & text
                                 & delta & chunk & -> & IH)].
      * left. by rewrite Hi, Hc.
      * right. exists before, mc, (after ++ [m]), s_b, s_c, template, text, delta, chunk.
        rewrite <- app_assoc. split; [done|].
        destruct IH as (? & ? & ? & ? & ? & ? & ? & ? & ? & ?).
        rewrite Hi, Hc. by repeat split.
    + right. exists ms, m, [], s, s', template, text, delta, chunk.
      rewrite <- (run_templates _ _ _ Hrun). repeat split; try done.
      rewrite Hi.
      destruct IH as [[-> _]|(? & ? & ? & ? & ? & ? & ? & ? & ? & _ & _ & _ & _ & _
                                & _ & _ & _ & _ & -> & _)].
      * by rewrite insert_empty.
      * by rewrite insert_singleton.
Qed.

(** A sender without a [CONTENT] message in a delivery keeps its entry. *)
Lemma contents_from_other (s : string) (ms : list Message) (acc : gmap string PyVal) :
  s ∉ content_senders ms -> contents_from acc ms !! s = acc !! s.
Proof.
  revert acc. induction ms as [|m ms IH]; intros acc Hs; [done|].
  rewrite content_senders_cons in Hs. unfold contents_from in *. cbn [foldl].
  destruct (is_content m) eqn:Hc.
  - apply not_elem_of_cons in Hs as [Hne Hs].
    rewrite (IH _ Hs). destruct (data_content m); [|done].
    by rewrite lookup_insert_ne.
  - by rewrite (IH _ Hs).
Qed.

(** Each sender's entry is the dumped payload of its latest [CONTENT]
    message. *)
Lemma contents_from_latest (before after : list Message) (mc : Message)
    (content : PyVal) (acc : gmap string PyVal) :
  is_content mc = true ->
  data_content mc = Some content ->
  sender mc ∉ content_senders after ->
  contents_from acc (before ++ mc :: after) !! sender mc
  = Some (dump_content content).
Proof.
  intros Hc Hd Hafter. unfold contents_from. rewrite foldl_app. cbn [foldl].
  rewrite Hc, Hd.
  pose proof (contents_from_other (sender mc) after) as Ho.
  unfold contents_from in Ho. rewrite (Ho _ Hafter). apply lookup_insert_eq.
Qed.
End Shape.

(** C3, as amended: a terminal success fragment is pushed only by a
    [CONTENT] message after which the senders on record are exactly the
    dependencies, and it reads [{"output": O, "chunks": M}]. [O] is the
    aggregator's rendered-output dictionary: empty when no chunk was
    rendered, and otherwise [{"output": text}] with the text that
    [render_template] made of the stitched document after the last chunk
    that pushed an incremental fragment. [M] maps exactly the
    dependencies, each to the dumped payload of its latest [CONTENT]
    message. Both are the aggregator's own dictionaries: a fragment still
    queued shows what they hold when it is read, later chunks and
    [CONTENT] messages included. *)
Theorem terminal_success_fragment_shape `{Collaborators}
    (dependencies : list string) (templates : gmap string string)
    (spread : gset string) (ms : list Message) (m : Message)
    (self self' : OutputActor) :
  run (init dependencies templates spread) ms = Returns self ->
  on_receive self m = Returns self' ->
  _content_queue self' = _content_queue self ++ [TerminalSuccess] ->
  is_content m = true /\
  dom (final_contents (ms ++ [m])) = list_to_set dependencies /\
  (forall before mc after content,
     ms ++ [m] = before ++ mc :: after ->
     is_content mc = true ->
     data_content mc = Some content ->
     sender mc ∉ content_senders after ->
     final_contents (ms ++ [m]) !! sender mc = Some (dump_content content)) /\
  fragment_value self' TerminalSuccess
  = VDict {[ "output" := VDict (VStr <$> _int_output self');
             "chunks" := VDict (final_contents (ms ++ [m])) ]} /\
  rendered_last (init dependencies templates spread) (ms ++ [m]) self' /\
  rendered_once self' /\
  (forall later self'',
     run self' later = Returns self'' ->
     fragment_value self'' TerminalSuccess
     = VDict {[ "output" := VDict (VStr <$> _int_output self'');
                "chunks" := VDict (final_contents ((ms ++ [m]) ++ later)) ]} /\
     rendered_last (init dependencies templates spread) ((ms ++ [m]) ++ later) self'').
Proof.
  intros Hrun Hm Hpush.
  assert (Hrun' : run (init dependencies templates spread) (ms ++ [m]) = Returns self').
  { rewrite run_app, Hrun. cbn [run]. by rewrite Hm. }
  destruct (run_pushed _ _ _ Hrun) as (Hd & _).
  destruct (on_receive_step _ _ _ Hm) as (Hd' & _ & fs & Hq & Hcount).
  rewrite Hq in Hpush. apply app_inv_head in Hpush. subst fs.
  assert (Hcm : is_content m = true /\ dependencies_met self' = true).
  { destruct (is_content m), (dependencies_met self'); try done;
      by vm_compute in Hcount. }
  destruct Hcm as [Hcontent Hmet].
  apply dependencies_met_spec in Hmet. rewrite Hd', Hd in Hmet. simpl in Hmet.
  assert (Hms : forall l s, run (init dependencies templates spread) l = Returns s ->
                            _messages s = final_contents l)
    by (intros l s Hl; by rewrite (run_messages _ _ _ Hl)).
  split; [done|].
  split; [by rewrite <- (Hms _ _ Hrun')|].
  split.
  { intros before mc after content -> Hc Hdc Hafter.
    by apply contents_from_latest. }
  split; [by simpl; rewrite (Hms _ _ Hrun')|].
  split; [by apply run_rendered_last|].
  split.
  { eapply run_rendered; [exact Hrun'|]. by left. }
  intros later self'' Hlater.
  assert (Hrun'' : run (init dependencies templates spread) ((ms ++ [m]) ++ later)
                   = Returns self'') by (by rewrite run_app, Hrun').
  split; [by simpl; rewrite (Hms _ _ Hrun'')|].
  by apply run_rendered_last.
Qed.

Lemma terminal_success_fragment_shape_witness :
  let deps := ["A"; "B"] in
  let templates : gmap string string := {[ "output" := "done" ]} in
  let chunkA := msg CONTENT_STREAM_CHUNK "A"
                  (Some (ContentStreamChunkData (VDict {[ "x" := VInt 1 ]}))) in
  let doneA := msg CONTENT "A" (Some (ContentData (VStr "done-A"))) in
  let doneB := msg CONTENT "B" (Some (ContentData (VStr "done-B"))) in
  let moreB := msg CONTENT "B" (Some (ContentData (VStr "more-B"))) in
  let self := actor_of (@run plain (init deps templates ∅) [chunkA; doneA]) in
  let self' := actor_of (@on_receive plain self doneB) in
  let self'' := actor_of (@run plain self' [moreB]) in
  _content_queue self' = _content_queue self ++ [TerminalSuccess] /\
  dom (final_contents ([chunkA; doneA] ++ [doneB])) = list_to_set deps /\
  fragment_value self' TerminalSuccess
  = VDict {[ "output" := VDict {[ "output" := VStr "done" ]};
             "chunks" := VDict {[ "A" := VStr "done-A"; "B" := VStr "done-B" ]} ]} /\
  fragment_value self'' TerminalSuccess
  = VDict {[ "output" := VDict {[ "output" := VStr "done" ]};
             "chunks" := VDict {[ "A" := VStr "done-A"; "B" := VStr "more-B" ]} ]} /\
  @rendered_last plain (init deps templates ∅) ([chunkA; doneA] ++ [doneB]) self'.
Proof.
  intros deps templates chunkA doneA doneB moreB self self' self''.
  assert (Hpush : _content_queue self' = _content_queue self ++ [TerminalSuccess])
    by (by vm_compute).
  destruct (@terminal_success_fragment_shape plain deps templates ∅
              [chunkA; doneA] doneB self self')
    as (_ & Hdom & _ & Hvalue & Hlast & _ & Hlater); [by vm_compute..|exact Hpush|].
  split; [exact Hpush|]. split; [exact Hdom|].
  split; [by vm_compute|]. split; [by vm_compute|]. exact Hlast.
Defined.

(** C3, refuted as stated: what the fragment holds under ["output"] is a
    dictionary, [{"output": "done"}] after a chunk was rendered to
    ["done"], and the empty dictionary when no chunk came before; it is
    never the rendered text itself. *)
Lemma terminal_success_fragment_counterexample :
  let chunkA := msg CONTENT_STREAM_CHUNK "A"
                  (Some (ContentStreamChunkData (VDict {[ "x" := VInt 1 ]}))) in
  let doneA := msg CONTENT "A" (Some (ContentData (VStr "done-A"))) in
  let self := actor_of (@run plain (init ["A"] {[ "output" := "done" ]} ∅)
                          [chunkA; doneA]) in
  let bare := actor_of (@run plain (init ["A"] {[ "output" := "done" ]} ∅)
                          [doneA]) in
  _content_queue self
  = [Incremental "done" "A" (VDict {[ "x" := VInt 1 ]}); TerminalSuccess] /\
  getitem (fragment_value self TerminalSuccess) "output"
  = Some (VDict {[ "output" := VStr "done" ]}) /\
  _content_queue bare = [TerminalSuccess] /\
  getitem (fragment_value bare TerminalSuccess) "output" = Some (VDict ∅).
Proof. vm_compute. repeat split. Qed.

(** ** Merging chunks *)

Lemma stitch_model_objects_getitem (obj1 : PyVal) (d2 : gmap string PyVal) (k : string) :
  getitem (stitch_model_objects obj1 (VDict d2)) k =
    match d2 !! k with
    | Some v2 =>
        Some (match getitem obj1 k with
              | Some v1 => stitch_model_objects v1 v2
              | None => v2
              end)
    | None => getitem obj1 k
    end.
Proof.
  destruct obj1 as [| | | | |d1|]; simpl; try by destruct (d2 !! k).
  apply (map_fold_weak_ind
           (fun (r : gmap string PyVal) (m : gmap string PyVal) =>
              r !! k = match m !! k with
                       | Some v2 =>
                           Some (match d1 !! k with
                                 | Some v1 => stitch_model_objects v1 v2
                                 | None => v2
                                 end)
                       | None => d1 !! k
                       end)).
  - by rewrite lookup_empty.
  - intros i x m r Hi IH.
    destruct (decide (i = k)) as [->|Hne].
    + by rewrite !lookup_insert_eq.
    + by rewrite !lookup_insert_ne.
Qed.

Lemma stitch_model_objects_scalar (obj1 : PyVal) (z : Z) :
  stitch_model_objects obj1 (VInt z) = VInt z.
Proof. by destruct obj1. Qed.

Section Chunks.
Context `{Collaborators}.

(** A chunk message with a chunk payload always has its chunk merged,
    whatever the rest of the guarded body does. *)
Lemma stream_chunk_stitched (self : OutputActor) (m : Message) (chunk : PyVal) :
  data_chunk m = Some chunk ->
  _stitched_data (try_except (stream_chunk_body m) self)
  = stitch_model_objects (_stitched_data self) (contribution self (sender m) chunk).
Proof.
  intros Hchunk. chunk_cases self m; by simplify_eq.
Qed.

(** The guarded body never reads [_errors]. *)
Lemma stream_chunk_errors (self : OutputActor) (m : Message) (e : option (list Error)) :
  try_except (stream_chunk_body m) (set_errors e self)
  = set_errors e (try_except (stream_chunk_body m) self).
Proof.
  pose proof (stream_chunk_cases self m) as Hc.
  pose proof (stream_chunk_cases (set_errors e self) m) as He.
  simpl in Hc, He. unfold contribution in *. simpl in He.
  destruct (data_chunk m) as [chunk|]; [|by rewrite Hc, He].
  destruct (_templates self !! "output") as [template|]; [|by rewrite Hc, He].
  destruct (render_template template _) as [new|]; [|by rewrite Hc, He].
  destruct (to_delta _ new) as [delta|]; by rewrite Hc, He.
Qed.
(** Only [reset] takes an error list off the record. *)
Lemma on_receive_errors_kept (self self' : OutputActor) (m : Message) :
  on_receive self m = Returns self' ->
  is_Some (_errors self) -> is_Some (_errors self').
Proof.
  unfold on_receive.
  destruct (type m) eqn:Ht; try (by intros [= <-]).
  - destruct (data_content m) as [content|]; [|discriminate].
    by destruct (dependencies_met _); intros [= <-].
  - intros [= <-].
    by destruct (stream_chunk_frame self m) as (_ & _ & _ & _ & -> & _).
  - destruct (data_errors m); [|discriminate]. intros [= <-] _. by eexists.
Qed.

Lemma run_errors_kept (ms : list Message) (self self' : OutputActor) :
  run self ms = Returns self' ->
  is_Some (_errors self) -> is_Some (_errors self').
Proof.
  revert self. induction ms as [|m ms IH]; intros self; cbn [run].
  - by intros [= <-].
  - destruct (on_receive self m) as [self1|] eqn:Hm; [|discriminate].
    intros Hrun He. eapply IH; [done|]. by eapply on_receive_errors_kept.
Qed.
End Chunks.

(** C2, as amended: an [ERRORS] message only records its error list.
    Whatever is delivered next, a [CONTENT_STREAM_CHUNK] message processed
    afterwards is handled as it would be without the error: its chunk is
    merged into the stitched document, and when the template renders and
    the delta is computed an incremental fragment is pushed; the error
    list stays on record. *)
Theorem chunk_after_errors_is_merged `{Collaborators}
    (self0 self1 self : OutputActor) (e m : Message) (between : list Message)
    (chunk : PyVal) :
  type e = ERRORS ->
  on_receive self0 e = Returns self1 ->
  run self1 between = Returns self ->
  type m = CONTENT_STREAM_CHUNK ->
  data_chunk m = Some chunk ->
  exists self',
    on_receive self m = Returns self' /\
    is_Some (_errors self) /\
    _errors self' = _errors self /\
    _stitched_data self'
    = stitch_model_objects (_stitched_data self)
        (contribution self (sender m) chunk) /\
    (forall template new_int_output delta,
       _templates self !! "output" = Some template ->
       render_template template (_stitched_data self') = Some new_int_output ->
       to_delta (default "" (_int_output self !! "output")) new_int_output
       = Some delta ->
       _content_queue self'
       = _content_queue self ++ [Incremental delta (sender m) chunk]) /\
    on_receive (set_errors None self) m = Returns (set_errors None self').
Proof.
  intros Hte He Hrun Htm Hdm.
  exists (try_except (stream_chunk_body m) self).
  assert (Hon : forall a, on_receive a m = Returns (try_except (stream_chunk_body m) a))
    by (intros a; unfold on_receive; by rewrite Htm).
  split; [apply Hon|].
  split.
  { eapply run_errors_kept; [done|].
    unfold on_receive in He. rewrite Hte in He.
    destruct (data_errors e); [|discriminate]. injection He as <-. by eexists. }
  split; [by destruct (stream_chunk_frame self m) as (_ & _ & _ & _ & ? & _)|].
  split; [by apply stream_chunk_stitched|].
  split.
  - intros template new delta Htpl Hrender Hdelta.
    rewrite (stream_chunk_stitched _ _ _ Hdm) in Hrender.
    pose proof (stream_chunk_cases self m) as Hc.
    simpl in Hc. rewrite Hdm, Htpl in Hc. simpl in Hc.
    rewrite Hrender, Hdelta in Hc. by rewrite Hc.
  - rewrite Hon. f_equal. apply stream_chunk_errors.
Qed.

Lemma chunk_after_errors_is_merged_witness :
  let self0 := init ["A"; "B"] {[ "output" := "done" ]} ∅ in
  let e := msg ERRORS "B" (Some (ErrorsData [{| code := -1; message := "boom" |}])) in
  let doneA := msg CONTENT "A" (Some (ContentData (VStr "done-A"))) in
  let m := msg CONTENT_STREAM_CHUNK "A"
             (Some (ContentStreamChunkData (VDict {[ "a" := VInt 1 ]}))) in
  let self := actor_of (@run plain self0 [e; doneA]) in
  exists self',
    @on_receive plain self m = Returns self' /\
    is_Some (_errors self) /\
    _errors self' = _errors self /\
    _stitched_data self'
    = stitch_model_objects (_stitched_data self)
        (contribution self (sender m) (VDict {[ "a" := VInt 1 ]})) /\
    (forall template new_int_output delta,
       _templates self !! "output" = Some template ->
       @render_template plain template (_stitched_data self') = Some new_int_output ->
       @to_delta plain (default "" (_int_output self !! "output")) new_int_output
       = Some delta ->
       _content_queue self'
       = _content_queue self
           ++ [Incremental delta (sender m) (VDict {[ "a" := VInt 1 ]})]) /\
    @on_receive plain (set_errors None self) m = Returns (set_errors None self').
Proof.
  intros self0 e doneA m self.
  refine (@chunk_after_errors_is_merged plain self0
            (actor_of (@on_receive plain self0 e)) self e m [doneA]
            (VDict {[ "a" := VInt 1 ]}) eq_refl _ _ eq_refl eq_refl).
  - vm_compute. reflexivity.
  - vm_compute. reflexivity.
Defined.

(** C2, refuted as stated: after an [ERRORS] message, a chunk [{"a": 1}]
    of sender [A] turns the stitched document from [{}] into
    [{"A": {"a": 1}}] and pushes an incremental fragment. *)
Lemma chunk_after_errors_counterexample :
  let self := init ["A"] {[ "output" := "done" ]} ∅ in
  let e := msg ERRORS "B" (Some (ErrorsData [{| code := -1; message := "boom" |}])) in
  let m := msg CONTENT_STREAM_CHUNK "A"
             (Some (ContentStreamChunkData (VDict {[ "a" := VInt 1 ]}))) in
  let self1 := actor_of (@on_receive plain self e) in
  let self2 := actor_of (@on_receive plain self1 m) in
  @on_receive plain self e = Returns self1 /\
  @on_receive plain self1 m = Returns self2 /\
  _errors self1 = Some [{| code := -1; message := "boom" |}] /\
  _stitched_data self1 = VDict ∅ /\
  _content_queue self1 = [] /\
  _stitched_data self2 = VDict {[ "A" := VDict {[ "a" := VInt 1 ]} ]} /\
  _content_queue self2 = [Incremental "done" "A" (VDict {[ "a" := VInt 1 ]})].
Proof. vm_compute. repeat split. Qed.

(** C9: a chunk sent by [S]. If [S] is in the spread set, the chunk itself
    is merged into the stitched document, so each top-level key of a
    dictionary chunk is merged into the same key of the document; if [S]
    is not, the chunk is merged under the key [S]. So the chunk [{"a": 1}]
    leaves [stitched["a"] == 1] in the first case and
    [stitched[S]["a"] == 1] in the second. *)
Theorem spread_vs_namespaced_merge `{Collaborators}
    (self : OutputActor) (m : Message) (chunk : PyVal) :
  type m = CONTENT_STREAM_CHUNK ->
  data_chunk m = Some chunk ->
  exists self',
    on_receive self m = Returns self' /\
    (sender m ∈ _spread_output_for_keys self ->
     _stitched_data self' = stitch_model_objects (_stitched_data self) chunk /\
     forall c, chunk = VDict c ->
       (forall k v, c !! k = Some v ->
          getitem (_stitched_data self') k
          = Some (match getitem (_stitched_data self) k with
                  | Some old => stitch_model_objects old v
                  | None => v
                  end)) /\
       (c !! "a" = Some (VInt 1) ->
        getitem (_stitched_data self') "a" = Some (VInt 1))) /\
    (sender m ∉ _spread_output_for_keys self ->
     getitem (_stitched_data self') (sender m)
     = Some (match getitem (_stitched_data self) (sender m) with
             | Some old => stitch_model_objects old chunk
             | None => chunk
             end) /\
     forall c, chunk = VDict c ->
       c !! "a" = Some (VInt 1) ->
       exists under, getitem (_stitched_data self') (sender m) = Some under /\
                     getitem under "a" = Some (VInt 1)).
Proof.
  intros Ht Hd.
  exists (try_except (stream_chunk_body m) self).
  unfold on_receive. rewrite Ht. split; [done|].
  rewrite (stream_chunk_stitched _ _ _ Hd). unfold contribution.
  split.
  - intros Hin. rewrite bool_decide_eq_false_2 by (by intros ?).
    split; [done|]. intros c ->.
    assert (Hkey : forall k v, c !! k = Some v ->
              getitem (stitch_model_objects (_stitched_data self) (VDict c)) k
              = Some (match getitem (_stitched_data self) k with
                      | Some old => stitch_model_objects old v
                      | None => v
                      end)).
    { intros k v Hk. by rewrite stitch_model_objects_getitem, Hk. }
    split; [done|].
    intros Ha. rewrite (Hkey _ _ Ha).
    destruct (getitem _ "a"); [|done]. by rewrite stitch_model_objects_scalar.
  - intros Hnotin. rewrite bool_decide_eq_true_2 by done.
    rewrite stitch_model_objects_getitem, lookup_singleton_eq.
    split; [done|].
    intros c -> Ha. eexists. split; [done|].
    destruct (getitem (_stitched_data self) (sender m)) as [old|]; [|done].
    rewrite stitch_model_objects_getitem, Ha.
    destruct (getitem old "a"); [|done]. by rewrite stitch_model_objects_scalar.
Qed.

Lemma spread_vs_namespaced_merge_witness :
  let m := msg CONTENT_STREAM_CHUNK "S"
             (Some (ContentStreamChunkData (VDict {[ "a" := VInt 1 ]}))) in
  let spread := @on_receive plain (init ["S"] {[ "output" := "done" ]} {[ "S" ]}) m in
  let namespaced := @on_receive plain (init ["S"] {[ "output" := "done" ]} ∅) m in
  _stitched_data (actor_of spread) = VDict {[ "a" := VInt 1 ]} /\
  _stitched_data (actor_of namespaced) = VDict {[ "S" := VDict {[ "a" := VInt 1 ]} ]} /\
  getitem (_stitched_data (actor_of spread)) "a" = Some (VInt 1) /\
  exists under,
    getitem (_stitched_data (actor_of namespaced)) "S" = Some under /\
    getitem under "a" = Some (VInt 1).
Proof.
  intros m spread namespaced.
  split; [by vm_compute|]. split; [by vm_compute|].
  destruct (@spread_vs_namespaced_merge plain
              (init ["S"] {[ "output" := "done" ]} {[ "S" ]}) m
              (VDict {[ "a" := VInt 1 ]}) eq_refl eq_refl) as (s1 & Hs1 & Hspread & _).
  destruct (@spread_vs_namespaced_merge plain
              (init ["S"] {[ "output" := "done" ]} ∅) m
              (VDict {[ "a" := VInt 1 ]}) eq_refl eq_refl) as (s2 & Hs2 & _ & Hnames).
  split.
  - unfold spread. rewrite Hs1. simpl.
    destruct Hspread as [_ Hkeys]; [vm_compute; set_solver|].
    by apply (Hkeys {[ "a" := VInt 1 ]} eq_refl).
  - unfold namespaced. rewrite Hs2. simpl.
    destruct Hnames as [_ Hunder]; [vm_compute; set_solver|].
    by apply (Hunder {[ "a" := VInt 1 ]} eq_refl).
Defined.

(** ** The stream *)

Lemma pull_add (n k : nat) (self : OutputActor) (pos : Position) :
  pull (n + k) self pos =
    let '(evs1, self1, pos1) := pull n self pos in
    let '(evs2, self2, pos2) := pull k self1 pos1 in
    (evs1 ++ evs2, self2, pos2).
Proof.
  revert self pos. induction n as [|n IH]; intros self pos; simpl.
  - by destruct (pull k self pos) as [[? ?] ?].
  - destruct (resume self pos) as [[ev self0] pos0].
    rewrite IH.
    destruct (pull n self0 pos0) as [[evs1 self1] pos1].
    by destruct (pull k self1 pos1) as [[evs2 self2] pos2].
Qed.

(** The buffered fragments come out first, oldest first. *)
Lemma pull_drains (q : list Fragment) (self : OutputActor) (pos : Position) :
  in_loop pos = true ->
  _content_queue self = q ->
  pull (length q) self pos
  = ((fun f => Yield (fragment_value self f)) <$> q,
     set_content_queue [] self,
     match q with [] => pos | _ :: _ => AtYield end).
Proof.
  revert self pos. induction q as [|f q IH]; intros self pos Hpos Hq; simpl.
  - destruct self; simpl in *; by subst.
  - assert (resume self pos
            = (Yield (fragment_value self f), set_content_queue q self, AtYield)) as ->.
    { unfold resume, loop_iteration. rewrite Hq. by destruct pos. }
    rewrite (IH (set_content_queue q self) AtYield eq_refl eq_refl).
    by destruct q.
Qed.

(** From the [finally] block on, the iteration is over. *)
Lemma pull_finished (k : nat) (self : OutputActor) (pos : Position) :
  in_loop pos = false ->
  pull k self pos
  = (replicate k StopAsyncIteration, self,
     match k with O => pos | S _ => Finished end).
Proof.
  revert pos. induction k as [|k IH]; intros pos Hpos; simpl; [done|].
  assert (resume self pos = (StopAsyncIteration, self, Finished)) as ->
    by by destruct pos.
  rewrite (IH Finished eq_refl). by destruct k.
Qed.

(** The fragment of the [finally] block. *)
Lemma finally_block_terminal (self : OutputActor) :
  errors_or_stopped self = true ->
  finally_block self
  = (Yield match _errors self with
           | Some (e :: es) => errors_fragment (e :: es)
           | _ => interrupted_fragment
           end, self, AtFinalYield).
Proof.
  unfold errors_or_stopped, finally_block, truthy.
  destruct (_errors self) as [[|e es]|]; simpl; try done.
  all: by intros ->.
Qed.

(** Error or stop on record: the buffer drains, the terminal fragment
    follows once, then the iteration is over for good. *)
Lemma pull_terminal (k : nat) (self : OutputActor) (pos : Position) :
  in_loop pos = true ->
  errors_or_stopped self = true ->
  pull (length (_content_queue self) + (1 + S k)) self pos
  = (((fun f => Yield (fragment_value self f)) <$> _content_queue self)
       ++ [Yield match _errors self with
                 | Some (e :: es) => errors_fragment (e :: es)
                 | _ => interrupted_fragment
                 end]
       ++ replicate (S k) StopAsyncIteration,
     set_content_queue [] self, Finished).
Proof.
  intros Hpos Hflag.
  rewrite pull_add, (pull_drains _ self pos Hpos eq_refl).
  rewrite (pull_add 1 (S k)).
  set (pos1 := match _content_queue self with [] => pos | _ :: _ => AtYield end).
  assert (Hpos1 : in_loop pos1 = true) by (subst pos1; by destruct (_content_queue self)).
  assert (pull 1 (set_content_queue [] self) pos1
          = ([Yield match _errors self with
                    | Some (e :: es) => errors_fragment (e :: es)
                    | _ => interrupted_fragment
                    end], set_content_queue [] self, AtFinalYield)) as ->.
  { cbn [pull]. unfold resume, loop_iteration. simpl.
    assert (errors_or_stopped (set_content_queue [] self) = true) as -> by done.
    rewrite (finally_block_terminal (set_content_queue [] self)) by done.
    by destruct pos1. }
  by rewrite (pull_finished (S k) _ AtFinalYield eq_refl).
Qed.

(** Without further deliveries the two flags stay as they are, and the
    iteration ends only if one of them is set. *)
Lemma pull_stops_on_flag (n : nat) (self self' : OutputActor) (pos pos' : Position)
    (evs : list Event) :
  in_loop pos = true \/ errors_or_stopped self = true ->
  pull n self pos = (evs, self', pos') ->
  StopAsyncIteration ∈ evs ->
  errors_or_stopped self = true.
Proof.
  revert self pos evs. induction n as [|n IH]; intros self pos evs Hinv; simpl.
  - intros [= <- <- <-] Hin. by apply elem_of_nil in Hin.
  - destruct (resume self pos) as [[ev self0] pos0] eqn:Hres.
    destruct (pull n self0 pos0) as [[evs0 self1] pos1] eqn:Hpull.
    intros [= <- <- <-] Hin.
    destruct (errors_or_stopped self) eqn:Hflag; [done|].
    destruct Hinv as [Hpos|?]; [|done].
    assert (Hstep : ev <> StopAsyncIteration /\ in_loop pos0 = true /\
                    errors_or_stopped self0 = false).
    { unfold resume, loop_iteration in Hres.
      destruct pos; try discriminate;
        (destruct (_content_queue self) as [|f q];
         [rewrite Hflag in Hres|]; by injection Hres as <- <- <-). }
    destruct Hstep as (Hev & Hpos0 & Hflag0).
    apply elem_of_cons in Hin as [Heq|Hin]; [congruence|].
    rewrite <- Hflag0. by apply (IH self0 pos0 evs0 (or_introl Hpos0) Hpull).
Qed.

(** Empty buffer, no error, no stop: the generator only sleeps. *)
Lemma pull_polls (n : nat) (self : OutputActor) (pos : Position) :
  in_loop pos = true ->
  _content_queue self = [] ->
  errors_or_stopped self = false ->
  pull n self pos
  = (replicate n Sleep, self, match n with O => pos | S _ => AtSleep end).
Proof.
  intros Hpos Hq Hflag. revert pos Hpos.
  induction n as [|n IH]; intros pos Hpos; simpl; [done|].
  assert (resume self pos = (Sleep, self, AtSleep)) as ->.
  { unfold resume, loop_iteration. rewrite Hq, Hflag. by destruct pos. }
  rewrite (IH AtSleep eq_refl). by destruct n.
Qed.

(** C4, as amended: with a non-empty error list on record, put there by
    the last [ERRORS] message, the stream yields the buffered fragments in
    order, then [{"errors": [the messages of that list]}] once, and ends;
    with [on_stop] called and no non-empty error list on record, the same
    with [{"errors": ["Output interrupted"]}]. Both hold for a consumer
    that keeps pulling while nothing else is delivered. And whatever is
    delivered between two resumptions, the loop is left through its
    [break] only with the buffer empty, and once the terminal fragment
    was yielded every later resumption ends the iteration. *)
Theorem stop_vs_error `{Collaborators}
    (self : OutputActor) (pos : Position) (k : nat) :
  in_loop pos = true ->
  (forall ev self' pos',
     resume self pos = (ev, self', pos') ->
     pos' = AtFinalYield ->
     _content_queue self = [] /\ errors_or_stopped self = true /\ self' = self /\
     ev = Yield match _errors self with
                | Some (e :: es) => errors_fragment (e :: es)
                | _ => interrupted_fragment
                end) /\
  (forall later : OutputActor,
     resume later AtFinalYield = (StopAsyncIteration, later, Finished) /\
     resume later Finished = (StopAsyncIteration, later, Finished)) /\
  (forall (m : Message) (e : Error) (es : list Error),
     type m = ERRORS ->
     data_errors m = Some (e :: es) ->
     exists self1,
       on_receive self m = Returns self1 /\
       pull (length (_content_queue self1) + (1 + S k)) self1 pos
       = (((fun f => Yield (fragment_value self1 f)) <$> _content_queue self1)
            ++ [Yield (VDict {[ "errors" :=
                                  VList ((fun error => VStr (message error))
                                           <$> e :: es) ]})]
            ++ replicate (S k) StopAsyncIteration,
          set_content_queue [] self1, Finished)) /\
  (truthy (_errors self) = false ->
   pull (length (_content_queue (on_stop self)) + (1 + S k)) (on_stop self) pos
   = (((fun f => Yield (fragment_value (on_stop self) f))
         <$> _content_queue (on_stop self))
        ++ [Yield (VDict {[ "errors" := VList [VStr "Output interrupted"] ]})]
        ++ replicate (S k) StopAsyncIteration,
      set_content_queue [] (on_stop self), Finished)).
Proof.
  intros Hpos. split; [|split; [done|split]].
  - intros ev self' pos' Hres ->.
    unfold resume, loop_iteration in Hres.
    destruct (_content_queue self) as [|f q].
    + destruct (errors_or_stopped self) eqn:Hflag.
      * rewrite (finally_block_terminal _ Hflag) in Hres.
        by destruct pos; try discriminate; injection Hres as <- <-.
      * by destruct pos.
    + by destruct pos.
  - intros m e es Ht Hd.
    exists (on_error self (sender m) (e :: es)).
    unfold on_receive. rewrite Ht, Hd. split; [done|].
    by rewrite (pull_terminal k _ pos Hpos).
  - intros Hfalsy.
    rewrite (pull_terminal k (on_stop self) pos Hpos) by
      (unfold errors_or_stopped; simpl; by rewrite orb_true_r).
    simpl. unfold truthy in Hfalsy.
    by destruct (_errors self) as [[|? ?]|].
Qed.

Lemma stop_vs_error_witness :
  let chunkA := msg CONTENT_STREAM_CHUNK "A"
                  (Some (ContentStreamChunkData (VDict {[ "x" := VInt 1 ]}))) in
  let self := actor_of (@run plain (init ["A"] {[ "output" := "done" ]} ∅) [chunkA]) in
  pull 3 (on_stop self) AtStart
  = ([Yield (VDict {[ "deltas" := VDict {[ "output" := VStr "done" ]};
                      "chunk" := VDict {[ "A" := VDict {[ "x" := VInt 1 ]} ]} ]});
      Yield (VDict {[ "errors" := VList [VStr "Output interrupted"] ]});
      StopAsyncIteration],
     set_content_queue [] (on_stop self), Finished).
Proof.
  intros chunkA self.
  exact (proj2 (proj2 (proj2 (@stop_vs_error plain self AtStart 0 eq_refl))) eq_refl).
Defined.

(** C4, refuted as stated: an [ERRORS] message with an empty error list
    is on record but counts as no error, so the stream keeps polling, and
    after [on_stop] it ends with ["Output interrupted"], not with
    [{"errors": []}]; and when the consumer is cancelled during the sleep,
    the terminal fragment comes although a fragment is still buffered. *)
Lemma stop_vs_error_counterexample :
  let none := msg ERRORS "A" (Some (ErrorsData [])) in
  let boom := msg ERRORS "A" (Some (ErrorsData [{| code := -1; message := "boom" |}])) in
  let chunkA := msg CONTENT_STREAM_CHUNK "A"
                  (Some (ContentStreamChunkData (VDict {[ "x" := VInt 1 ]}))) in
  let fresh := init ["A"] {[ "output" := "done" ]} ∅ in
  let self := actor_of (@on_receive plain fresh none) in
  let late := actor_of (@run plain fresh [chunkA; boom]) in
  _errors self = Some [] /\
  pull 3 self AtStart = ([Sleep; Sleep; Sleep], self, AtSleep) /\
  pull 2 (on_stop self) AtStart
  = ([Yield (VDict {[ "errors" := VList [VStr "Output interrupted"] ]});
      StopAsyncIteration], on_stop self, Finished) /\
  pull 1 fresh AtStart = ([Sleep], fresh, AtSleep) /\
  cancel late AtSleep
  = Some (Yield (VDict {[ "errors" := VList [VStr "boom"] ]}), late, AtFinalYield) /\
  _content_queue late = [Incremental "done" "A" (VDict {[ "x" := VInt 1 ]})].
Proof. vm_compute. repeat split. Qed.

(** C8, as amended: left to itself, the stream ends only with an error
    list (not empty) or a stop on record, after the buffer has drained and
    the terminal failure fragment was yielded; the terminal success
    fragment ends nothing: with the buffer empty and neither flag set the
    generator sleeps and polls again, however often it is resumed. *)
Theorem stream_ends_on_error_or_stop_only
    (self : OutputActor) (pos : Position) (n : nat) :
  in_loop pos = true ->
  (StopAsyncIteration ∈ (pull n self pos).1.1 -> errors_or_stopped self = true) /\
  (errors_or_stopped self = true ->
   (pull (length (_content_queue self) + 2) self pos).1.1
   = ((fun f => Yield (fragment_value self f)) <$> _content_queue self)
       ++ [Yield match _errors self with
                 | Some (e :: es) => errors_fragment (e :: es)
                 | _ => interrupted_fragment
                 end; StopAsyncIteration]) /\
  (errors_or_stopped self = false ->
   (pull (length (_content_queue self) + n) self pos).1.1
   = ((fun f => Yield (fragment_value self f)) <$> _content_queue self)
       ++ replicate n Sleep).
Proof.
  intros Hpos. split; [|split].
  - destruct (pull n self pos) as [[evs self'] pos'] eqn:Hpull. simpl.
    by apply (pull_stops_on_flag n self self' pos pos' evs (or_introl Hpos)).
  - intros Hflag. pose proof (pull_terminal 0 self pos Hpos Hflag) as Hp.
    change (1 + 1) with 2 in Hp. by rewrite Hp.
  - intros Hflag.
    rewrite pull_add, (pull_drains _ self pos Hpos eq_refl).
    rewrite (pull_polls n (set_content_queue [] self)); [done| |done|done].
    by destruct (_content_queue self).
Qed.

Lemma stream_ends_on_error_or_stop_only_witness :
  let doneA := msg CONTENT "A" (Some (ContentData (VStr "done-A"))) in
  let self := actor_of (@run plain (init ["A"] {[ "output" := "done" ]} ∅) [doneA]) in
  (pull (length (_content_queue self) + 3) self AtStart).1.1
  = ((fun f => Yield (fragment_value self f)) <$> _content_queue self)
      ++ replicate 3 Sleep.
Proof.
  intros doneA self.
  exact (proj2 (proj2 (stream_ends_on_error_or_stop_only self AtStart 3 eq_refl))
           eq_refl).
Defined.

(** C8, refuted as stated: with dependencies [{A}], after the [CONTENT]
    message of [A] the consumer receives the terminal success fragment,
    the buffer is empty, and the generator goes on sleeping: the sequence
    has not ended. *)
Lemma stream_after_success_counterexample :
  let doneA := msg CONTENT "A" (Some (ContentData (VStr "done-A"))) in
  let self := actor_of (@run plain (init ["A"] {[ "output" := "done" ]} ∅) [doneA]) in
  _content_queue self = [TerminalSuccess] /\
  pull 4 self AtStart
  = ([Yield (VDict {[ "output" := VDict ∅;
                      "chunks" := VDict {[ "A" := VStr "done-A" ]} ]});
      Sleep; Sleep; Sleep],
     set_content_queue [] self, AtSleep).
Proof. vm_compute. repeat split. Qed.


(** * Further properties *)

(** ** Browser instructions *)

Module static_web_browser_properties.
Import static_web_browser.

(** No two instruction types share a string. *)
Lemma value_inj (t1 t2 : BrowserInstructionType) : value t1 = value t2 -> t1 = t2.
Proof. by destruct t1, t2. Qed.

(** X1: the validator of [BrowserInstruction.type] changes nothing: for
    every instruction type, lower-casing and capitalising its string gives
    the string back, so a constructed instruction holds the member's own
    string. *)
Theorem validate_type_keeps_value (t : BrowserInstructionType)
    (sel dat : option string) :
  validate_type t = value t /\
  type (BrowserInstruction_init t sel dat) = value t.
Proof. by destruct t. Qed.

(** The chain finds the member whose string the type is, or falls
    through when the type is no member's string. *)
Lemma instruction_type_cases (i : BrowserInstruction) :
  (exists t, type i = value t /\ instruction_type i = inl (like_named t)) \/
  ((forall t, type i <> value t) /\ instruction_type i = inr (type i)).
Proof.
  unfold instruction_type.
  repeat match goal with
         | |- context [String.eqb (type i) (value ?t)] =>
             let E := fresh "E" in
             destruct (String.eqb (type i) (value t)) eqn:E;
             [apply String.eqb_eq in E; left; exists t; by split
             |apply String.eqb_neq in E]
         end.
  right. split; [|done]. by intros [].
Qed.

Lemma or_empty_default (x : option string) : or_empty x = default "" x.
Proof.
  destruct x as [s|]; [|done]. unfold or_empty. simpl.
  destruct (String.eqb s "") eqn:E; [|done]. by apply String.eqb_eq in E.
Qed.

(** X2: every constructed instruction becomes a command of the like-named
    command type, with an absent or empty [data] and [selector] turned
    into the empty string, and two instructions of different types never
    become commands of the same type. *)
Theorem instruction_to_command_constructed `{CommandValidation}
    (t : BrowserInstructionType) (sel dat : option string) :
  _web_browser_instruction_to_command (BrowserInstruction_init t sel dat)
  = BuiltCommand {| command_type := like_named t;
                    command_data := default "" dat;
                    command_selector := default "" sel |} /\
  forall t' sel' dat' command',
    _web_browser_instruction_to_command (BrowserInstruction_init t' sel' dat')
    = BuiltCommand command' ->
    command_type command' = like_named t ->
    t' = t.
Proof.
  assert (Hty : forall u s d,
            _web_browser_instruction_to_command (BrowserInstruction_init u s d)
            = BuiltCommand {| command_type := like_named u;
                              command_data := default "" d;
                              command_selector := default "" s |}).
  { intros u s d. unfold _web_browser_instruction_to_command. simpl.
    rewrite !or_empty_default. by destruct u. }
  split; [apply Hty|].
  intros t' sel' dat' command'. rewrite Hty. intros [= <-]. simpl.
  by destruct t, t'.
Qed.

Lemma instruction_to_command_constructed_witness :
  (forall V : CommandValidation,
     @_web_browser_instruction_to_command V
       (BrowserInstruction_init MOUSE_MOVE None (Some "10,20"))
     = BuiltCommand {| command_type := CMD_MOUSE_MOVE; command_data := "10,20";
                       command_selector := "" |}) /\
  (forall V : CommandValidation,
     @_web_browser_instruction_to_command V
       (BrowserInstruction_init MOUSE_MOVE (Some "#a") None)
     = BuiltCommand {| command_type := CMD_MOUSE_MOVE; command_data := "";
                       command_selector := "#a" |} /\
     MOUSE_MOVE = MOUSE_MOVE).
Proof.
  split; [done|].
  intros V. split; [done|].
  exact (proj2 (@instruction_to_command_constructed V MOUSE_MOVE None (Some "10,20"))
           MOUSE_MOVE (Some "#a") None _ eq_refl eq_refl).
Defined.

(** X3: for any instruction, however it came to be, the chain of
    comparisons either finds the member whose string the type is, and the
    command of the like-named type is built; or it falls through, exactly
    when the type is no member's string, and the string itself is given
    to [WebBrowserCommand] as command type: the command is then built
    with the member that the validation makes of the string, or the
    construction fails. The comparison is case-sensitive, so ["click"]
    falls through. *)
Theorem instruction_to_command_cases `{CommandValidation} (i : BrowserInstruction) :
  ((exists t,
      type i = value t /\
      _web_browser_instruction_to_command i
      = BuiltCommand {| command_type := like_named t;
                        command_data := default "" (data i);
                        command_selector := default "" (selector i) |}) \/
   ((forall t, type i <> value t) /\
    instruction_type i = inr (type i) /\
    _web_browser_instruction_to_command i
    = match command_type_of_string (type i) with
      | Some member =>
          BuiltCommand {| command_type := member;
                          command_data := default "" (data i);
                          command_selector := default "" (selector i) |}
      | None => CommandValidationError (type i)
      end)) /\
  instruction_type {| type := "click"; selector := None; data := None |}
  = inr "click".
Proof.
  split; [|done].
  unfold _web_browser_instruction_to_command. rewrite !or_empty_default.
  destruct (instruction_type_cases i) as [(t & Ht & ->)|(Hno & ->)].
  - left. by exists t.
  - right. by repeat split.
Qed.

End static_web_browser_properties.

(** ** The aggregator, call by call *)

Section Calls.
Context `{Collaborators}.

(** Whatever [on_receive] does, it keeps the constructor arguments and the
    stop flag. *)
Lemma on_receive_keeps (self : OutputActor) (m : Message) :
  let self' := actor_of (on_receive self m) in
  _dependencies self' = _dependencies self /\
  _templates self' = _templates self /\
  _spread_output_for_keys self' = _spread_output_for_keys self /\
  _stopped self' = _stopped self.
Proof.
  unfold on_receive.
  destruct (type m); try done.
  - destruct (data_content m); [|done]. by destruct (dependencies_met _).
  - simpl. by destruct (stream_chunk_frame self m) as (? & ? & ? & _ & _ & ? & _).
  - by destruct (data_errors m).
Qed.

(** A message that is not an [ERRORS] message leaves the error list. *)
Lemma on_receive_keeps_errors (self : OutputActor) (m : Message) :
  is_errors m = false ->
  _errors (actor_of (on_receive self m)) = _errors self.
Proof.
  unfold on_receive, is_errors.
  destruct (type m); try done.
  - destruct (data_content m); [|done]. by destruct (dependencies_met _).
  - intros _. simpl. by destruct (stream_chunk_frame self m) as (_ & _ & _ & _ & ? & _).
Qed.

Lemma run_keeps_errors (ms : list Message) (self : OutputActor) :
  Forall (fun m => is_errors m = false) ms ->
  _errors (actor_of (run self ms)) = _errors self.
Proof.
  revert self. induction ms as [|m ms IH]; intros self Hall; cbn [run]; [done|].
  apply Forall_cons in Hall as [Hm Hms].
  pose proof (on_receive_keeps_errors self m Hm) as Hk.
  destruct (on_receive self m) as [self1|e self1]; simpl in Hk; [|done].
  by rewrite (IH _ Hms).
Qed.
End Calls.

(** X4: [on_receive] raises exactly for an [ERRORS] message whose payload
    has no error list and for a [CONTENT] message whose payload has no
    content; what it raises is [AttributeError], and the actor is as
    before the call. Every other message, a chunk message with a wrong
    payload included, makes it return. *)
Theorem on_receive_raises_exactly `{Collaborators} (self : OutputActor) (m : Message) :
  match on_receive self m with
  | Raises e self' =>
      e = AttributeError /\ self' = self /\
      ((type m = ERRORS /\ data_errors m = None) \/
       (type m = CONTENT /\ data_content m = None))
  | Returns _ =>
      ~ ((type m = ERRORS /\ data_errors m = None) \/
         (type m = CONTENT /\ data_content m = None))
  end.
Proof.
  unfold on_receive.
  destruct (type m) eqn:Ht; try (intros [[? _]|[? _]]; discriminate).
  - destruct (data_content m); [|by auto].
    destruct (dependencies_met _); intros [[? _]|[_ ?]]; discriminate.
  - destruct (data_errors m); [|by auto].
    intros [[_ ?]|[? _]]; discriminate.
Qed.

(** X5: [BEGIN], [CONTENT_STREAM_BEGIN] and [CONTENT_STREAM_END] messages
    mean nothing to the aggregator: a delivery ends as the same delivery
    without them does, payloads and senders of the dropped messages
    notwithstanding. *)
Theorem ignored_messages_change_nothing `{Collaborators}
    (self : OutputActor) (ms : list Message) :
  run self ms = run self (filter (fun m => is_ignored m = false) ms).
Proof.
  revert self. induction ms as [|m ms IH]; intros self; [done|].
  rewrite filter_cons. destruct (decide (is_ignored m = false)) as [Hk|Hi].
  - cbn [run]. destruct (on_receive self m); [apply IH|done].
  - cbn [run]. assert (on_receive self m = Returns self) as ->; [|apply IH].
    unfold on_receive. unfold is_ignored in Hi. by destruct (type m).
Qed.

(** X6: completion is announced again. Once the senders on record are the
    dependency set, every further [CONTENT] message of a dependency
    records its content and pushes one more terminal success fragment. *)
Theorem completion_is_announced_again `{Collaborators}
    (self : OutputActor) (m : Message) (content : PyVal) :
  dependencies_met self = true ->
  type m = CONTENT ->
  data_content m = Some content ->
  sender m ∈ _dependencies self ->
  on_receive self m
  = Returns (put_nowait TerminalSuccess
               (set_messages (<[sender m := dump_content content]> (_messages self))
                  self)).
Proof.
  intros Hmet Ht Hd Hin. unfold on_receive. rewrite Ht, Hd.
  assert (dependencies_met
            (set_messages (<[sender m := dump_content content]> (_messages self)) self)
          = true) as ->; [|done].
  apply dependencies_met_spec in Hmet. apply dependencies_met_spec. simpl.
  rewrite dom_insert_L, <- Hmet.
  apply (elem_of_list_to_set (C:=gset string)) in Hin. set_solver.
Qed.

Lemma completion_is_announced_again_witness :
  let doneA := msg CONTENT "A" (Some (ContentData (VStr "done-A"))) in
  let again := msg CONTENT "A" (Some (ContentData (VStr "more-A"))) in
  let self := actor_of (@run plain (init ["A"] ∅ ∅) [doneA]) in
  _content_queue self = [TerminalSuccess] /\
  @on_receive plain self again
  = Returns (put_nowait TerminalSuccess
               (set_messages (<["A" := VStr "more-A"]> (_messages self)) self)).
Proof.
  intros doneA again self. split; [by vm_compute|].
  refine (@completion_is_announced_again plain self again (VStr "more-A") _ _ _ _).
  - by vm_compute.
  - reflexivity.
  - reflexivity.
  - vm_compute. set_solver.
Defined.

(** X7: the last [ERRORS] message wins. When a delivery returns, the error
    list on record is the list of the last [ERRORS] message in it, earlier
    lists being dropped; it is the one the terminal failure fragment
    reports. *)
Theorem last_errors_message_wins `{Collaborators}
    (self self' : OutputActor) (before after : list Message) (e : Message)
    (errors : list Error) :
  run self (before ++ e :: after) = Returns self' ->
  type e = ERRORS ->
  data_errors e = Some errors ->
  Forall (fun m => is_errors m = false) after ->
  _errors self' = Some errors /\
  (errors <> [] ->
   (finally_block self').1.1 = Yield (errors_fragment errors)).
Proof.
  intros Hrun Ht Hd Hafter.
  assert (He : _errors self' = Some errors).
  { revert self Hrun. induction before as [|b before IH]; intros self; cbn [app run].
    - unfold on_receive at 1. rewrite Ht, Hd. intros Hrun.
      pose proof (run_keeps_errors after (on_error self (sender e) errors) Hafter) as Hk.
      by rewrite Hrun in Hk.
    - destruct (on_receive self b); [apply IH|discriminate]. }
  split; [done|].
  intros Hne. unfold finally_block. rewrite He. by destruct errors.
Qed.

Lemma last_errors_message_wins_witness :
  let first := msg ERRORS "A" (Some (ErrorsData [{| code := -1; message := "first" |}])) in
  let last := msg ERRORS "B" (Some (ErrorsData [{| code := 7; message := "last" |}])) in
  let doneA := msg CONTENT "A" (Some (ContentData (VStr "done-A"))) in
  let self' := actor_of (@run plain (init ["A"] ∅ ∅) [first; last; doneA]) in
  _errors self' = Some [{| code := 7; message := "last" |}] /\
  ([{| code := 7; message := "last" |}] <> [] ->
   (finally_block self').1.1
   = Yield (errors_fragment [{| code := 7; message := "last" |}])).
Proof.
  intros first last doneA self'.
  refine (@last_errors_message_wins plain (init ["A"] ∅ ∅) self' [first] [doneA] last
            [{| code := 7; message := "last" |}] _ eq_refl eq_refl _).
  - by vm_compute.
  - by repeat constructor.
Defined.

(** ** Interleaved calls *)

Section Interleaving.
Context `{Collaborators}.

Lemma reset_ext (a b : OutputActor) :
  _dependencies a = _dependencies b ->
  _templates a = _templates b ->
  _spread_output_for_keys a = _spread_output_for_keys b ->
  reset a = set_output_stream (_output_stream a) (reset b).
Proof. unfold reset, set_output_stream. simpl. by intros -> -> ->. Qed.

(** A resumption takes the head of the queue, when it takes anything, and
    changes nothing else of the actor. *)
Lemma resume_actor (self : OutputActor) (pos : Position) :
  match next_fragment self pos with
  | Some f =>
      exists rest, _content_queue self = f :: rest /\
        resume self pos
        = (Yield (fragment_value self f), set_content_queue rest self, AtYield)
  | None => (resume self pos).1.2 = self
  end.
Proof.
  unfold next_fragment, resume, loop_iteration.
  destruct pos; simpl; try done.
  all: destruct (_content_queue self) as [|f rest]; simpl; [|by eexists].
  all: destruct (errors_or_stopped self); [|done].
  all: unfold finally_block; by repeat case_match.
Qed.

Lemma set_content_queue_id (self : OutputActor) :
  set_content_queue (_content_queue self) self = self.
Proof. by destruct self. Qed.

(** [on_receive] never reads the queue: fragments waiting in front of it
    change nothing of what a call does. *)
Lemma on_receive_with_prefix (pre : list Fragment) (self : OutputActor) (m : Message) :
  actor_of (on_receive (set_content_queue (pre ++ _content_queue self) self) m)
  = set_content_queue (pre ++ _content_queue (actor_of (on_receive self m)))
      (actor_of (on_receive self m)).
Proof.
  unfold on_receive.
  destruct (type m); simpl; try done.
  - destruct (data_content m) as [content|]; [|done].
    unfold dependencies_met. simpl.
    case_bool_decide; simpl; [|done].
    unfold put_nowait, set_content_queue. simpl. by rewrite app_assoc.
  - pose proof (stream_chunk_cases self m) as Ha.
    pose proof (stream_chunk_cases
                  (set_content_queue (pre ++ _content_queue self) self) m) as Hb.
    unfold contribution in *. simpl in Ha, Hb.
    destruct (data_chunk m) as [chunk|]; [|by rewrite Ha, Hb].
    destruct (_templates self !! "output") as [template|]; [|by rewrite Ha, Hb].
    destruct (render_template template _) as [new|]; [|by rewrite Ha, Hb].
    destruct (to_delta _ new) as [delta|]; rewrite Ha, Hb; [|done].
    unfold put_nowait, bookkeep, set_content_queue. simpl. by rewrite app_assoc.
  - by destruct (data_errors m).
Qed.

(** The calls of a schedule alone, started with the fragments [pre] in
    front of the queue, end with everything the resumptions would have
    taken still in the queue, and the same actor otherwise. *)
Lemma exec_calls_only (acts : list Action) :
  forall (self : OutputActor) (pos pos_b : Position) (pre : list Fragment),
    exec (filter (fun a => is_call a = true) acts)
      (set_content_queue (pre ++ _content_queue self) self) pos_b
    = ([], [],
       set_content_queue
         (pre ++ (exec acts self pos).1.1.2 ++ _content_queue (exec acts self pos).1.2)
         (exec acts self pos).1.2,
       pos_b).
Proof.
  induction acts as [|[m| |] acts IH]; intros self pos pos_b pre.
  - done.
  - rewrite filter_cons_True by done. cbn [exec].
    rewrite on_receive_with_prefix. apply IH.
  - rewrite filter_cons_True by done. cbn [exec].
    apply (IH (on_stop self)).
  - rewrite filter_cons_False by done. cbn [exec].
    pose proof (resume_actor self pos) as Hr.
    destruct (next_fragment self pos) as [f|].
    + destruct Hr as (rest & Hq & ->).
      destruct (exec acts (set_content_queue rest self) AtYield)
        as [[[evs taken] self'] pos'] eqn:He. simpl.
      specialize (IH (set_content_queue rest self) AtYield pos_b (pre ++ [f])).
      rewrite He in IH. simpl in IH.
      rewrite Hq.
      replace (pre ++ f :: taken ++ _content_queue self')
        with ((pre ++ [f]) ++ taken ++ _content_queue self')
        by (by rewrite <- app_assoc).
      rewrite <- IH. f_equal.
      unfold set_content_queue. simpl. by rewrite <- app_assoc.
    + destruct (resume self pos) as [[ev self1] pos1]. simpl in Hr. subst self1.
      destruct (exec acts self pos1) as [[[evs taken] self'] pos'] eqn:He. simpl.
      specialize (IH self pos1 pos_b pre). by rewrite He in IH.
Qed.

Lemma exec_keeps (acts : list Action) (self : OutputActor) (pos : Position) :
  _dependencies (exec acts self pos).1.2 = _dependencies self /\
  _templates (exec acts self pos).1.2 = _templates self /\
  _spread_output_for_keys (exec acts self pos).1.2 = _spread_output_for_keys self.
Proof.
  revert self pos. induction acts as [|[m| |] acts IH]; intros self pos; cbn [exec].
  - done.
  - destruct (IH (actor_of (on_receive self m)) pos) as (-> & -> & ->).
    by destruct (on_receive_keeps self m) as (? & ? & ? & _).
  - by destruct (IH (on_stop self) pos) as (-> & -> & ->).
  - pose proof (resume_actor self pos) as Hr.
    destruct (resume self pos) as [[ev self1] pos1] eqn:Hres.
    destruct (exec acts self1 pos1) as [[[evs taken] self'] pos'] eqn:He. simpl.
    specialize (IH self1 pos1). rewrite He in IH. simpl in IH.
    destruct IH as (-> & -> & ->).
    destruct (next_fragment self pos).
    + destruct Hr as (rest & _ & Heq). by injection Heq as _ -> _.
    + simpl in Hr. by subst self1.
Qed.

(** The stop flag is never read by [on_receive]. *)
Lemma on_receive_stopped (self : OutputActor) (m : Message) :
  on_receive (on_stop self) m = map_outcome on_stop (on_receive self m).
Proof.
  unfold on_receive.
  destruct (type m); simpl; try done.
  - destruct (data_content m) as [content|]; [|done].
    unfold dependencies_met. simpl. by case_bool_decide.
  - f_equal.
    pose proof (stream_chunk_cases self m) as Ha.
    pose proof (stream_chunk_cases (on_stop self) m) as Hb.
    unfold contribution in *. simpl in Ha, Hb.
    destruct (data_chunk m) as [chunk|]; [|by rewrite Ha, Hb].
    destruct (_templates self !! "output") as [template|]; [|by rewrite Ha, Hb].
    destruct (render_template template _) as [new|]; [|by rewrite Ha, Hb].
    destruct (to_delta _ new) as [delta|]; by rewrite Ha, Hb.
  - by destruct (data_errors m).
Qed.

Lemma exec_stopped (acts : list Action) (self : OutputActor) (pos : Position) :
  _stopped self = true -> _stopped (exec acts self pos).1.2 = true.
Proof.
  revert self pos. induction acts as [|[m| |] acts IH]; intros self pos Hs; cbn [exec].
  - done.
  - apply IH. by destruct (on_receive_keeps self m) as (_ & _ & _ & ->).
  - by apply IH.
  - pose proof (resume_actor self pos) as Hr.
    destruct (resume self pos) as [[ev self1] pos1] eqn:Hres.
    destruct (exec acts self1 pos1) as [[[evs taken] self'] pos'] eqn:He. simpl.
    specialize (IH self1 pos1). rewrite He in IH. apply IH.
    destruct (next_fragment self pos).
    + destruct Hr as (rest & _ & Heq). by injection Heq as _ -> _.
    + simpl in Hr. by subst self1.
Qed.
End Interleaving.

(** X9: stopping is for good and changes nothing else. After [on_stop]
    the flag stays set through every later delivery and resumption, and
    [on_receive] goes on working as if nothing had happened: a delivery
    to the stopped actor ends as the delivery to the running actor does,
    stopped afterwards. *)
Theorem stop_is_sticky_and_silent `{Collaborators}
    (acts : list Action) (ms : list Message) (self : OutputActor) (pos : Position) :
  _stopped (exec (Stop :: acts) self pos).1.2 = true /\
  on_stop (on_stop self) = on_stop self /\
  run (on_stop self) ms = map_outcome on_stop (run self ms).
Proof.
  split; [cbn [exec]; by apply exec_stopped|]. split; [done|].
  revert self. induction ms as [|m ms IH]; intros self; cbn [run]; [done|].
  rewrite on_receive_stopped.
  destruct (on_receive self m) as [self1|e self1]; simpl; [apply IH|done].
Qed.

(** X10: consuming the stream does not interfere with aggregation, and
    the stream is first-in first-out. For any interleaving of deliveries,
    stops and resumptions, the fragments taken off the queue followed by
    those still queued are the fragments that the same calls push without
    any resumption, in the same order; and but for the queue the actor is
    the same. *)
Theorem consumption_does_not_interfere `{Collaborators}
    (acts : list Action) (self : OutputActor) (pos : Position) :
  let after := exec acts self pos in
  let calls := exec (filter (fun a => is_call a = true) acts) self pos in
  after.1.1.2 ++ _content_queue after.1.2 = _content_queue calls.1.2 /\
  set_content_queue [] after.1.2 = set_content_queue [] calls.1.2 /\
  calls.1.1.2 = [].
Proof.
  intros after calls.
  pose proof (exec_calls_only acts self pos pos []) as Hc.
  simpl in Hc. rewrite set_content_queue_id in Hc.
  subst calls. rewrite Hc. by subst after.
Qed.

(** ** Rendering *)

Section Rendering.
Context `{Collaborators}.

(** One call, as far as rendering goes: either nothing is rendered, and
    at most a terminal success fragment is pushed; or the message is a
    chunk message, the template rendered the merged document, the delta
    was taken against the text on record, and text, bookkeeping record and
    incremental fragment follow. *)
Lemma on_receive_rendering (self : OutputActor) (m : Message) :
  let self' := actor_of (on_receive self m) in
  (is_chunk m = false -> _stitched_data self' = _stitched_data self) /\
  exists fs, _content_queue self' = _content_queue self ++ fs /\
    (((fs = [] \/ fs = [TerminalSuccess]) /\
      _int_output self' = _int_output self /\
      _output_stream self' = _output_stream self) \/
     (exists template new delta chunk,
        is_chunk m = true /\
        _templates self !! "output" = Some template /\
        render_template template (_stitched_data self') = Some new /\
        to_delta (default "" (_int_output self !! "output")) new = Some delta /\
        fs = [Incremental delta (sender m) chunk] /\
        _int_output self' = <["output" := new]> (_int_output self) /\
        _output_stream self' = _output_stream self ++ [_int_output self'])).
Proof.
  unfold on_receive.
  destruct (type m) eqn:Ht; simpl.
  all: try (split; [done|exists []; rewrite app_nil_r; split; [done|left; auto]]).
  - destruct (data_content m) as [content|];
      [|split; [done|exists []; rewrite app_nil_r; split; [done|left; auto]]].
    destruct (dependencies_met _); simpl; (split; [done|]).
    + exists [TerminalSuccess]. split; [done|]. left. auto.
    + exists []. rewrite app_nil_r. split; [done|]. left. auto.
  - split; [by unfold is_chunk; rewrite Ht|].
    pose proof (stream_chunk_cases self m) as Hc. simpl in Hc.
    destruct (data_chunk m) as [chunk|];
      [|rewrite Hc; exists []; rewrite app_nil_r; split; [done|left; auto]].
    destruct (_templates self !! "output") as [template|] eqn:Htpl;
      [|rewrite Hc; simpl; exists []; rewrite app_nil_r; split; [done|]; left; auto].
    destruct (render_template template _) as [new|] eqn:Hrender;
      [|rewrite Hc; simpl; exists []; rewrite app_nil_r; split; [done|]; left; auto].
    destruct (to_delta _ new) as [delta|] eqn:Hdelta;
      [|rewrite Hc; simpl; exists []; rewrite app_nil_r; split; [done|]; left; auto].
    rewrite Hc. simpl. eexists. split; [done|]. right.
    exists template, new, delta, chunk. unfold is_chunk. rewrite Ht. by repeat split.
  - destruct (data_errors m); simpl;
      (split; [done|exists []; rewrite app_nil_r; split; [done|left; auto]]).
Qed.

(** What every call keeps, every delivery keeps, be it cut short by a
    raising call. *)
Lemma run_invariant (P : OutputActor -> Prop) :
  (forall self m, P self -> P (actor_of (on_receive self m))) ->
  forall ms self, P self -> P (actor_of (run self ms)).
Proof.
  intros Hstep ms. induction ms as [|m ms IH]; intros self HP; cbn [run]; [done|].
  specialize (Hstep self m HP).
  destruct (on_receive self m) as [self1|e self1]; [by apply IH|done].
Qed.
End Rendering.

(** X11: the deltas add up. When the delta engine has an inverse [apply],
    a consumer that starts from the empty text and applies the deltas of
    the incremental fragments in the order they were pushed holds the
    rendered text that the aggregator has on record; a chunk whose
    rendering or delta failed pushes nothing and leaves the text on
    record, so it does not break the chain. *)
Theorem deltas_rebuild_rendered_output `{Collaborators}
    (apply : string -> string -> string)
    (dependencies : list string) (templates : gmap string string)
    (spread : gset string) (ms : list Message) :
  (forall previous next delta,
     to_delta previous next = Some delta -> apply delta previous = next) ->
  let self' := actor_of (run (init dependencies templates spread) ms) in
  apply_deltas apply "" (_content_queue self')
  = default "" (_int_output self' !! "output").
Proof.
  intros Hlaw.
  apply (run_invariant
           (fun a => apply_deltas apply "" (_content_queue a)
                     = default "" (_int_output a !! "output"))); [|done].
  intros self m Hinv.
  destruct (on_receive_rendering self m) as (_ & fs & Hq & Hcases).
  rewrite Hq. unfold apply_deltas in *. rewrite foldl_app, Hinv.
  destruct Hcases as [([->| ->] & -> & _)|
                      (template & new & delta & chunk & _ & _ & _ & Hd & -> & -> & _)];
    try done.
  simpl. rewrite lookup_insert_eq. simpl. by apply Hlaw.
Qed.

Lemma deltas_rebuild_rendered_output_witness :
  let chunk1 := msg CONTENT_STREAM_CHUNK "A"
                  (Some (ContentStreamChunkData (VDict {[ "x" := VInt 1 ]}))) in
  let broken := msg CONTENT_STREAM_CHUNK "A" None in
  let doneA := msg CONTENT "A" (Some (ContentData (VStr "done-A"))) in
  let self' := actor_of (@run plain (init ["A"] {[ "output" := "done" ]} ∅)
                           [chunk1; broken; doneA; chunk1]) in
  count_incremental (_content_queue self') = 2 /\
  apply_deltas (fun delta _ => delta) "" (_content_queue self')
  = default "" (_int_output self' !! "output").
Proof.
  intros chunk1 broken doneA self'. split; [by vm_compute|].
  refine (@deltas_rebuild_rendered_output plain (fun delta _ => delta)
            ["A"] {[ "output" := "done" ]} ∅ [chunk1; broken; doneA; chunk1] _).
  intros previous next delta. simpl. by intros [= ->].
Defined.

(** X12: without an ["output"] template, which is what the constructor's
    default gives, nothing is ever rendered: no delivery pushes an
    incremental fragment, changes the rendered output or makes a
    bookkeeping record; yet every chunk is still merged into the stitched
    document. *)
Theorem no_template_no_incremental `{Collaborators}
    (self : OutputActor) (ms : list Message) :
  _templates self !! "output" = None ->
  let self' := actor_of (run self ms) in
  _int_output self' = _int_output self /\
  _output_stream self' = _output_stream self /\
  (exists fs, _content_queue self' = _content_queue self ++ fs /\
              count_incremental fs = 0) /\
  (forall m chunk,
     type m = CONTENT_STREAM_CHUNK ->
     data_chunk m = Some chunk ->
     _stitched_data (actor_of (on_receive self' m))
     = stitch_model_objects (_stitched_data self')
         (contribution self' (sender m) chunk)).
Proof.
  intros Htpl self'.
  assert (Hinv : _templates self' !! "output" = None /\
                 _int_output self' = _int_output self /\
                 _output_stream self' = _output_stream self /\
                 exists fs, _content_queue self' = _content_queue self ++ fs /\
                            count_incremental fs = 0).
  { apply (run_invariant
             (fun a => _templates a !! "output" = None /\
                       _int_output a = _int_output self /\
                       _output_stream a = _output_stream self /\
                       exists fs, _content_queue a = _content_queue self ++ fs /\
                                  count_incremental fs = 0)).
    - intros a m (Ht & Hi & Ho & fs0 & Hq0 & Hc0).
      destruct (on_receive_keeps a m) as (_ & Hk & _).
      destruct (on_receive_rendering a m) as (_ & fs & Hq & Hcases).
      destruct Hcases as [(Hfs & -> & ->)|(template & ? & ? & ? & _ & Hsome & _)];
        [|congruence].
      rewrite Hk. repeat split; try done.
      exists (fs0 ++ fs). rewrite Hq, Hq0, app_assoc. split; [done|].
      by rewrite count_incremental_app, Hc0, (count_incremental_quiet _ Hfs).
    - repeat split; try done. exists []. by rewrite app_nil_r. }
  destruct Hinv as (_ & ? & ? & ?). repeat split; try done.
  intros m chunk Ht Hd. unfold on_receive. rewrite Ht. simpl.
  by apply stream_chunk_stitched.
Qed.

Lemma no_template_no_incremental_witness :
  let chunkA := msg CONTENT_STREAM_CHUNK "A"
                  (Some (ContentStreamChunkData (VDict {[ "x" := VInt 1 ]}))) in
  let doneA := msg CONTENT "A" (Some (ContentData (VStr "done-A"))) in
  let self' := actor_of (@run plain (init ["A"] ∅ ∅) [chunkA; doneA]) in
  _stitched_data self' = VDict {[ "A" := VDict {[ "x" := VInt 1 ]} ]} /\
  _content_queue self' = [TerminalSuccess] /\
  _int_output self' = ∅ /\
  _output_stream self' = [].
Proof.
  intros chunkA doneA self'.
  split; [by vm_compute|]. split; [by vm_compute|].
  assert (Htpl : _templates (init ["A"] ∅ ∅) !! "output" = None) by (by vm_compute).
  destruct (@no_template_no_incremental plain (init ["A"] ∅ ∅) [chunkA; doneA] Htpl)
    as (Hi & Ho & _).
  by split.
Defined.

(** X13: bookkeeping and the stream go together. Over any delivery, one
    bookkeeping record is made for each incremental fragment pushed, and
    none otherwise; for a fresh aggregator the records are as many as the
    incremental fragments in the buffer. *)
Theorem bookkeeping_matches_incremental `{Collaborators}
    (self : OutputActor) (ms : list Message)
    (dependencies : list string) (templates : gmap string string)
    (spread : gset string) :
  (exists fs,
     _content_queue (actor_of (run self ms)) = _content_queue self ++ fs /\
     length (_output_stream (actor_of (run self ms)))
     = length (_output_stream self) + count_incremental fs) /\
  length (_output_stream (actor_of (run (init dependencies templates spread) ms)))
  = count_incremental
      (_content_queue (actor_of (run (init dependencies templates spread) ms))).
Proof.
  assert (Hgen : forall a0,
            exists fs,
              _content_queue (actor_of (run a0 ms)) = _content_queue a0 ++ fs /\
              length (_output_stream (actor_of (run a0 ms)))
              = length (_output_stream a0) + count_incremental fs).
  { intros a0.
    apply (run_invariant
             (fun a => exists fs,
                  _content_queue a = _content_queue a0 ++ fs /\
                  length (_output_stream a)
                  = length (_output_stream a0) + count_incremental fs)).
    - intros a m (fs0 & Hq0 & Hl0).
      destruct (on_receive_rendering a m) as (_ & fs & Hq & Hcases).
      exists (fs0 ++ fs). rewrite Hq, Hq0, app_assoc. split; [done|].
      rewrite count_incremental_app.
      destruct Hcases as [(Hfs & _ & ->)|(? & ? & ? & ? & _ & _ & _ & _ & -> & _ & ->)].
      + rewrite Hl0, (count_incremental_quiet _ Hfs). lia.
      + rewrite length_app, Hl0, count_incremental_one. simpl. lia.
    - exists []. rewrite app_nil_r. split; [done|].
      rewrite (count_incremental_quiet []); [lia|by left]. }
  split; [apply Hgen|].
  destruct (Hgen (init dependencies templates spread)) as (fs & Hq & Hl).
  simpl in Hq, Hl. by rewrite Hl, Hq.
Qed.

(** X14: final contents are not rendered. A delivery without chunk
    messages leaves the stitched document, the rendered output and the
    bookkeeping as they were and pushes no incremental fragment; so an
    aggregator whose dependencies send [CONTENT] only announces completion
    with an empty rendered output. *)
Theorem content_alone_renders_nothing `{Collaborators}
    (self : OutputActor) (ms : list Message) :
  Forall (fun m => is_chunk m = false) ms ->
  let self' := actor_of (run self ms) in
  _stitched_data self' = _stitched_data self /\
  _int_output self' = _int_output self /\
  _output_stream self' = _output_stream self /\
  (exists fs, _content_queue self' = _content_queue self ++ fs /\
              count_incremental fs = 0) /\
  (_int_output self = ∅ ->
   getitem (fragment_value self' TerminalSuccess) "output" = Some (VDict ∅)).
Proof.
  intros Hall self'.
  assert (Hinv : _stitched_data self' = _stitched_data self /\
                 _int_output self' = _int_output self /\
                 _output_stream self' = _output_stream self /\
                 exists fs, _content_queue self' = _content_queue self ++ fs /\
                            count_incremental fs = 0).
  { subst self'. revert self.
    induction ms as [|m ms IH]; intros self; cbn [run].
    - repeat split. exists []. by rewrite app_nil_r.
    - apply Forall_cons in Hall as [Hm Hms].
      destruct (on_receive_rendering self m) as (Hs & fs & Hq & Hcases).
      destruct Hcases as [(Hfs & Hi & Ho)|(? & ? & ? & ? & Hchunk & _)];
        [|congruence].
      destruct (on_receive self m) as [self1|e self1]; simpl in *.
      + destruct (IH Hms self1) as (-> & -> & -> & fs' & -> & Hc).
        rewrite (Hs Hm), Hi, Ho. repeat split.
        exists (fs ++ fs'). rewrite Hq, app_assoc. split; [done|].
        by rewrite count_incremental_app, Hc, (count_incremental_quiet _ Hfs).
      + rewrite (Hs Hm), Hi, Ho. repeat split.
        exists fs. split; [done|]. by apply count_incremental_quiet. }
  destruct Hinv as (? & Hi & ? & ?). repeat split; try done.
  intros Hempty. simpl. rewrite lookup_insert_eq. rewrite Hi, Hempty.
  by rewrite fmap_empty.
Qed.

Lemma content_alone_renders_nothing_witness :
  let doneA := msg CONTENT "A" (Some (ContentData (VStr "done-A"))) in
  let doneB := msg CONTENT "B" (Some (ContentData (VStr "done-B"))) in
  let self' := actor_of (@run plain (init ["A"; "B"] {[ "output" := "done" ]} ∅)
                           [doneA; doneB]) in
  _content_queue self' = [TerminalSuccess] /\
  getitem (fragment_value self' TerminalSuccess) "output" = Some (VDict ∅).
Proof.
  intros doneA doneB self'. split; [by vm_compute|].
  destruct (@content_alone_renders_nothing plain
              (init ["A"; "B"] {[ "output" := "done" ]} ∅) [doneA; doneB])
    as (_ & _ & _ & _ & Hout).
  - by repeat constructor.
  - by apply Hout.
Defined.

(** ** Reset *)

Section Sink.
Context `{Collaborators}.

(** The bookkeeping sink only grows. *)
Lemma exec_sink (acts : list Action) (self : OutputActor) (pos : Position) :
  exists more, _output_stream (exec acts self pos).1.2 = _output_stream self ++ more.
Proof.
  revert self pos. induction acts as [|[m| |] acts IH]; intros self pos; cbn [exec].
  - exists []. by rewrite app_nil_r.
  - destruct (IH (actor_of (on_receive self m)) pos) as (more & ->).
    destruct (on_receive_rendering self m) as (_ & fs & _ & Hcases).
    destruct Hcases as [(_ & _ & ->)|(? & ? & ? & ? & _ & _ & _ & _ & _ & _ & ->)].
    + by exists more.
    + eexists. by rewrite <- app_assoc.
  - destruct (IH (on_stop self) pos) as (more & ->). by exists more.
  - pose proof (resume_actor self pos) as Hr.
    destruct (resume self pos) as [[ev self1] pos1] eqn:Hres.
    destruct (exec acts self1 pos1) as [[[evs taken] self'] pos'] eqn:He. simpl.
    specialize (IH self1 pos1). rewrite He in IH. simpl in IH.
    destruct IH as (more & ->). exists more.
    destruct (next_fragment self pos).
    + destruct Hr as (rest & _ & Heq). by injection Heq as _ -> _.
    + simpl in Hr. by subst self1.
Qed.
End Sink.

(** X8: [reset] makes the aggregator fresh again but for the bookkeeping
    sink. No delivery, stop or resumption touches the constructor
    arguments, the sink only grows, and [reset] sets every other field
    anew: after any schedule a reset gives the actor that a reset before
    the schedule gives, and for an actor built by [__init__] the initial
    actor, each with the records made in between still in the sink. *)
Theorem reset_makes_fresh `{Collaborators}
    (acts : list Action) (pos : Position)
    (dependencies : list string) (templates : gmap string string)
    (spread : gset string) (self : OutputActor) :
  (exists more,
     _output_stream (exec acts self pos).1.2 = _output_stream self ++ more /\
     reset (exec acts self pos).1.2
     = set_output_stream (_output_stream self ++ more) (reset self)) /\
  (exists records,
     _output_stream (exec acts (init dependencies templates spread) pos).1.2
     = records /\
     reset (exec acts (init dependencies templates spread) pos).1.2
     = set_output_stream records (init dependencies templates spread)).
Proof.
  assert (Hr : forall a,
            reset (exec acts a pos).1.2
            = set_output_stream (_output_stream (exec acts a pos).1.2) (reset a)).
  { intros a. destruct (exec_keeps acts a pos) as (? & ? & ?). by apply reset_ext. }
  split.
  - destruct (exec_sink acts self pos) as (more & Hmore).
    exists more. split; [done|]. by rewrite Hr, Hmore.
  - eexists. split; [done|]. by rewrite Hr.
Qed.
